(** * gcs_uploader: the batch upload of [src/main.py]

    A shallow embedding of [GCSUploader.upload_file],
    [GCSUploader.upload_directory], [GCSUploader.bucket_exists] and of the
    two command bodies [upload] and [upload_dir].

    - Paths are lists of components, the local tree is an inductive [node];
      an entry that cannot be examined is a [Denied] node, on which the
      calls of [pathlib] that examine it raise [OSError].
    - The collaborators (object store, [Path.exists] at upload time, the
      client constructor, the thread pool's completion order) are the
      fields of a [World] record.
    - Effects are a writer of [event]s with Python exceptions: a
      computation yields [Ret v] or [Raise e] together with the events it
      emitted, in order.
    - [GCSUploader.list_buckets] and its command, and the exporter of
      [src/app/bigquery.py] (module [BigQuery]), follow the commands. *)

From Stdlib Require Import List String Ascii Bool Arith ZArith Lia Permutation.
From Stdlib Require Import DecimalString.
Import ListNotations.
Local Open Scope string_scope.
Local Open Scope list_scope.
Set Warnings "-register-all".

(** ** Paths *)

Abbreviation path := (list string) (only parsing).

(** The two path flavours of [pathlib]: the separator [str(path)] uses. *)
Inductive flavour := Posix | Windows.

Definition sep (fl : flavour) : string :=
  match fl with Posix => "/" | Windows => "\" end.

(** [str(path)]: the components joined by the separator; the path
    without components is [Path('.')]. *)
Definition str_path (fl : flavour) (p : path) : string :=
  match p with
  | [] => "."
  | _ => String.concat (sep fl) p
  end.

(** [path.name]: the final component, the empty string when there is none. *)
Definition name (p : path) : string := last p "".

(** [path.relative_to(root)]: the components after [root], [None] (a
    [ValueError] in Python) when [p] does not start with [root]. *)
Fixpoint relative_to (p root : path) {struct root} : option path :=
  match root with
  | [] => Some p
  | r :: root' =>
      match p with
      | [] => None
      | c :: p' => if String.eqb c r then relative_to p' root' else None
      end
  end.

(** [s.replace('\\', '/')]. *)
Definition backslash : ascii := "\"%char.
Definition slash : ascii := "/"%char.

Fixpoint replace_backslash (s : string) : string :=
  match s with
  | EmptyString => EmptyString
  | String c s' =>
      String (if Ascii.eqb c backslash then slash else c) (replace_backslash s')
  end.

(** Line 149: the destination key of one enumerated file. A Python string
    is falsy exactly when it is empty. *)
Definition is_empty (s : string) : bool :=
  match s with EmptyString => true | _ => false end.

Definition blob_name_of (fl : flavour) (prefix : string) (relative_path : path)
  : string :=
  if negb (is_empty prefix)
  then replace_backslash (prefix ++ str_path fl relative_path)
  else replace_backslash (str_path fl relative_path).

(** ** The local tree *)

(** [Denied msg] is an entry that cannot be examined: [os.stat] on it,
    or on a path through it, raises [OSError(msg)]. *)
Inductive node :=
| File
| Special
| Dir (entries : list (string * node))
| Denied (msg : string).

(** What [stat] finds at a path, from the node the path starts at: the
    first entry of that name. *)
Fixpoint find_entry (c : string) (es : list (string * node)) : option node :=
  match es with
  | [] => None
  | (n, child) :: es' => if String.eqb n c then Some child else find_entry c es'
  end.

Fixpoint resolve (n : node) (p : path) : option node :=
  match p with
  | [] => Some n
  | c :: p' =>
      match n with
      | Dir es =>
          match find_entry c es with
          | Some child => resolve child p'
          | None => None
          end
      | _ => None
      end
  end.

(** What [os.stat] answers for a path: the node, nothing there, or the
    error of an entry that cannot be examined. *)
Inductive stat_answer :=
| StatNode (n : node)
| StatMissing
| StatError (msg : string).

Fixpoint stat (n : node) (p : path) {struct p} : stat_answer :=
  match n with
  | Denied msg => StatError msg
  | _ =>
      match p with
      | [] => StatNode n
      | c :: p' =>
          match n with
          | Dir es =>
              match find_entry c es with
              | Some child => stat child p'
              | None => StatMissing
              end
          | _ => StatMissing
          end
      end
  end.

(** What the tree holds at a path. *)
Definition exists_ (fs : node) (p : path) : bool :=
  match resolve fs p with Some _ => true | None => false end.

Definition is_dir (fs : node) (p : path) : bool :=
  match resolve fs p with Some (Dir _) => true | _ => false end.

Definition is_file (fs : node) (p : path) : bool :=
  match resolve fs p with Some File => true | _ => false end.

(** [rglob('*')] from a node: every entry below it, directories included,
    each once, as a path relative to the node. As in the [pathlib] of
    Python 3.11, the entries of a directory come first, in the order the
    directory lists them, then what is below each of its sub-directories. *)
Fixpoint rglob (n : node) : list path :=
  match n with
  | Dir es =>
      map (fun e => [fst e]) es ++
      (fix walk (es : list (string * node)) : list path :=
         match es with
         | [] => []
         | (c, child) :: es' => map (cons c) (rglob child) ++ walk es'
         end) es
  | _ => []
  end.

(** The regular files below a directory, read off the tree itself, in
    the order of the walk. *)
Fixpoint regular_files (n : node) : list path :=
  match n with
  | Dir es =>
      (fix direct (es : list (string * node)) : list path :=
         match es with
         | [] => []
         | (c, File) :: es' => [c] :: direct es'
         | _ :: es' => direct es'
         end) es ++
      (fix walk (es : list (string * node)) : list path :=
         match es with
         | [] => []
         | (c, child) :: es' => map (cons c) (regular_files child) ++ walk es'
         end) es
  | _ => []
  end.

(** A tree is well formed when no directory holds two entries of one name. *)
Fixpoint names_fresh (c : string) (es : list (string * node)) : bool :=
  match es with
  | [] => true
  | (n, _) :: es' => negb (String.eqb n c) && names_fresh c es'
  end.

Fixpoint wf_node (n : node) : bool :=
  match n with
  | Dir es =>
      (fix walk (es : list (string * node)) : bool :=
         match es with
         | [] => true
         | (c, child) :: es' => names_fresh c es' && wf_node child && walk es'
         end) es
  | _ => true
  end.

(** ** Exceptions, events and the effect monad *)

(** The Python exceptions the code meets. [SystemExit] is a
    [BaseException]; the others are subclasses of [Exception]. *)
Inductive exn :=
| NotFound (msg : string)
| Forbidden (msg : string)
| DefaultCredentialsError (msg : string)
| OSError (msg : string)
| ValueError (msg : string)
| OtherException (msg : string)
| SystemExit (code : Z).

Definition is_Exception (e : exn) : bool :=
  match e with SystemExit _ => false | _ => true end.

(** [str(e)]. *)
Definition exn_str (e : exn) : string :=
  match e with
  | NotFound m | Forbidden m | DefaultCredentialsError m
  | OSError m | ValueError m | OtherException m => m
  | SystemExit c => NilZero.string_of_int (Z.to_int c)
  end.

Inductive level := INFO | WARNING | ERROR.

Inductive event :=
| EvLog (lvl : level) (msg : string)
| EvEcho (err : bool) (msg : string)
| EvReload (bucket : string)
| EvUploadFromFilename (bucket blob : string) (src : path)
| EvMakePublic (bucket blob : string)
| EvPbarUpdate.

Inductive result (A : Type) :=
| Ret (a : A)
| Raise (e : exn).
Arguments Ret {A} a.
Arguments Raise {A} e.

Definition M (A : Type) : Type := result A * list event.

Definition ret {A} (a : A) : M A := (Ret a, []).
Definition raise {A} (e : exn) : M A := (Raise e, []).
Definition emit (ev : event) : M unit := (Ret tt, [ev]).

Definition bind {A B} (m : M A) (f : A -> M B) : M B :=
  match m with
  | (Ret a, t) => let '(r, t') := f a in (r, t ++ t')
  | (Raise e, t) => (Raise e, t)
  end.

(** [try: m except ...]: [h e] is the body of the first clause that
    matches [e], [None] when no clause does. *)
Definition try_except {A} (m : M A) (h : exn -> option (M A)) : M A :=
  match m with
  | (Ret a, t) => (Ret a, t)
  | (Raise e, t) =>
      match h e with
      | Some k => let '(r, t') := k in (r, t ++ t')
      | None => (Raise e, t)
      end
  end.

Declare Scope py_scope.
Delimit Scope py_scope with py.
Notation "x <- m ;; k" := (bind m (fun x => k))
  (at level 61, m at next level, right associativity) : py_scope.
Notation "m ;; k" := (bind m (fun _ => k))
  (at level 61, right associativity) : py_scope.
Local Open Scope py_scope.

Definition log (lvl : level) (msg : string) : M unit := emit (EvLog lvl msg).
Definition echo (err : bool) (msg : string) : M unit := emit (EvEcho err msg).

Definition str_nat (n : nat) : string := NilZero.string_of_uint (Nat.to_uint n).

(** ** The collaborators *)

(** What the object store answers: [None] is success. *)
Inductive store_error :=
| StoreNotFound (msg : string)
| StoreForbidden (msg : string)
| StoreTransfer (msg : string).

Definition exn_of_store_error (e : store_error) : exn :=
  match e with
  | StoreNotFound m => NotFound m
  | StoreForbidden m => Forbidden m
  | StoreTransfer m => OtherException m
  end.

(** [Path.exists()] at upload time: it answers, or re-raises the
    [OSError]s it does not ignore. *)
Inductive stat_result := Present | Absent | StatFails (msg : string).

Inductive init_error :=
| NoCredentials (msg : string)
| InitFails (msg : string).

Abbreviation task := (list string * string)%type (only parsing).

Record World := {
  os_flavour : flavour;
  (** [str(self.project_id)] *)
  project_id : string;
  (** the local tree when the directory is walked *)
  fs : node;
  (** [Path.exists()] when a file is uploaded *)
  path_exists : path -> stat_result;
  (** [storage.Client(...)] *)
  client_new : option init_error;
  (** [bucket.reload()] *)
  reload : string -> option store_error;
  (** [blob.upload_from_filename(...)] *)
  upload_from_filename : string -> string -> path -> option store_error;
  (** [blob.make_public()] *)
  make_public : string -> string -> option store_error;
  (** the order in which the pool's futures complete *)
  as_completed : list task -> list task
}.

(** The pool runs every submitted task once: the futures complete in some
    order of the submitted tasks. *)
Definition pool_sound (w : World) : Prop :=
  forall l, Permutation l (as_completed w l).

Definition call_store (ev : event) (answer : option store_error) : M unit :=
  emit ev ;;
  match answer with
  | None => ret tt
  | Some e => raise (exn_of_store_error e)
  end.

(** ** [GCSUploader] *)

Section Uploader.
Variable w : World.

Let show (p : path) : string := str_path (os_flavour w) p.

(** [Path.exists()] when a file is uploaded, line 84. *)
Definition exists_now (p : path) : M bool :=
  match path_exists w p with
  | Present => ret true
  | Absent => ret false
  | StatFails msg => raise (OSError msg)
  end.

(** [GCSUploader.__init__], lines 38-61. *)
Definition GCSUploader_init : M unit :=
  match client_new w with
  | None => log INFO ("Initialized GCS client for project: " ++ project_id w)
  | Some (NoCredentials msg) =>
      log ERROR
        "No valid Google Cloud credentials found. Please set up authentication." ;;
      raise (DefaultCredentialsError msg)
  | Some (InitFails msg) =>
      log ERROR ("Failed to initialize GCS client: " ++ msg) ;;
      raise (OtherException msg)
  end.

(** [GCSUploader.upload_file], lines 63-115. *)
Definition upload_file (local_file_path : path) (bucket_name : string)
    (blob_name : option string) (public : bool) : M bool :=
  present <- exists_now local_file_path ;;
  if negb present then
    log ERROR ("File not found: " ++ show local_file_path) ;;
    ret false
  else
    let blob_name :=
      match blob_name with
      | None => name local_file_path
      | Some b => b
      end in
    let gs := ("gs://" ++ bucket_name ++ "/" ++ blob_name)%string in
    try_except
      (log INFO ("Uploading " ++ show local_file_path ++ " to " ++ gs) ;;
       call_store (EvUploadFromFilename bucket_name blob_name local_file_path)
         (upload_from_filename w bucket_name blob_name local_file_path) ;;
       (if public then
          call_store (EvMakePublic bucket_name blob_name)
            (make_public w bucket_name blob_name) ;;
          log INFO ("Made blob public: " ++ gs)
        else ret tt) ;;
       log INFO ("Successfully uploaded: " ++ gs) ;;
       ret true)
      (fun e =>
         match e with
         | NotFound _ =>
             Some (log ERROR ("Bucket not found: " ++ bucket_name) ;;
                   ret false)
         | Forbidden _ =>
             Some (log ERROR ("Access denied to bucket: " ++ bucket_name) ;;
                   ret false)
         | _ =>
             if is_Exception e then
               Some (log ERROR ("Failed to upload " ++ show local_file_path
                                ++ ": " ++ exn_str e) ;;
                     ret false)
             else None
         end).

(** [Path.exists()], [Path.is_dir()] and [Path.is_file()] while the
    directory is walked, lines 140 and 147: they answer from the tree and
    re-raise the [OSError] of an entry that cannot be examined. *)
Definition Path_exists (p : path) : M bool :=
  match stat (fs w) p with
  | StatNode _ => ret true
  | StatMissing => ret false
  | StatError msg => raise (OSError msg)
  end.

Definition Path_is_dir (p : path) : M bool :=
  match stat (fs w) p with
  | StatNode (Dir _) => ret true
  | StatNode _ | StatMissing => ret false
  | StatError msg => raise (OSError msg)
  end.

Definition Path_is_file (p : path) : M bool :=
  match stat (fs w) p with
  | StatNode File => ret true
  | StatNode _ | StatMissing => ret false
  | StatError msg => raise (OSError msg)
  end.

(** The result dictionary of [upload_directory]. *)
Record results := mk_results {
  success : nat;
  failed : nat;
  errors : list string
}.

Definition no_results : results := mk_results 0 0 [].

(** Lines 146-150: the loop over [rglob('*')]. [found] is
    [files_to_upload] so far. *)
Fixpoint collect (local_dir_path : path) (prefix : string)
    (walk : list path) (found : list task) : M (list task) :=
  match walk with
  | [] => ret found
  | file_path :: walk' =>
      regular <- Path_is_file file_path ;;
      if regular : bool then
        match relative_to file_path local_dir_path with
        | Some relative_path =>
            collect local_dir_path prefix walk'
              (found ++
                 [(file_path,
                   blob_name_of (os_flavour w) prefix relative_path)])
        | None =>
            raise (ValueError (show file_path ++ " is not in the subpath of "
                               ++ show local_dir_path))
        end
      else collect local_dir_path prefix walk' found
  end.

(** [local_dir_path.rglob('*')]: the paths below the directory. *)
Definition rglob_from (local_dir_path : path) : list path :=
  match resolve (fs w) local_dir_path with
  | Some n => map (app local_dir_path) (rglob n)
  | None => []
  end.

(** Lines 171-183: one completed future. *)
Definition settle (bucket_name : string) (public : bool) (res : results)
    (t : task) : M results :=
  let '(file_path, blob_name) := t in
  res' <- try_except
    (ok <- upload_file file_path bucket_name (Some blob_name) public ;;
     if ok : bool then
       ret (mk_results (success res + 1) (failed res) (errors res))
     else
       ret (mk_results (success res) (failed res + 1)
              (errors res ++ [("Failed to upload: " ++ show file_path)%string])))
    (fun e =>
       if is_Exception e then
         Some (ret (mk_results (success res) (failed res + 1)
                      (errors res ++
                         [("Error uploading " ++ show file_path ++ ": "
                           ++ exn_str e)%string])))
       else None) ;;
  emit EvPbarUpdate ;;
  ret res'.

(** Lines 170-183: the loop over the completed futures. *)
Fixpoint drain (bucket_name : string) (public : bool)
    (completed : list task) (res : results) : M results :=
  match completed with
  | [] => ret res
  | t :: completed' =>
      res' <- settle bucket_name public res t ;;
      drain bucket_name public completed' res'
  end.

(** [GCSUploader.upload_directory], lines 117-186. The pool refuses a
    worker count below one when it is built, line 161. *)
Definition upload_directory (local_dir_path : path) (bucket_name : string)
    (prefix : string) (public : bool) (max_workers : Z) : M results :=
  present <- Path_exists local_dir_path ;;
  directory <- (if present : bool then Path_is_dir local_dir_path
                else ret false) ;;
  if negb present || negb directory then
    log ERROR ("Directory not found: " ++ show local_dir_path) ;;
    ret no_results
  else
    files_to_upload <-
      collect local_dir_path prefix (rglob_from local_dir_path) [] ;;
    match files_to_upload with
    | [] =>
        log WARNING ("No files found in directory: " ++ show local_dir_path) ;;
        ret no_results
    | _ =>
        log INFO ("Found " ++ str_nat (List.length files_to_upload)
                  ++ " files to upload") ;;
        if (max_workers <=? 0)%Z then
          raise (ValueError "max_workers must be greater than 0")
        else
          res <- drain bucket_name public
                   (as_completed w files_to_upload) no_results ;;
          log INFO ("Upload complete: " ++ str_nat (success res)
                    ++ " successful, " ++ str_nat (failed res) ++ " failed") ;;
          ret res
    end.

(** [GCSUploader.bucket_exists], lines 199-209. *)
Definition bucket_exists (bucket_name : string) : M bool :=
  try_except
    (call_store (EvReload bucket_name) (reload w bucket_name) ;;
     ret true)
    (fun e =>
       match e with
       | NotFound _ => Some (ret false)
       | _ =>
           if is_Exception e then
             Some (log ERROR ("Error checking bucket " ++ bucket_name ++ ": "
                              ++ exn_str e) ;;
                   ret false)
           else None
       end).

(** ** The commands *)

(** [sys.exit(code)]. *)
Definition sys_exit {A} (code : Z) : M A := raise (SystemExit code).

Definition except_Exception (e : exn) : option (M unit) :=
  if is_Exception e then
    Some (echo true ("Error: " ++ exn_str e) ;; sys_exit 1)
  else None.

(** [upload], lines 233-255: the body of the command. The path is echoed
    as [pathlib] prints it; the command line may spell it otherwise. *)
Definition upload (file_path : path) (bucket_name : string)
    (blob_name : option string) (public : bool) : M unit :=
  try_except
    (GCSUploader_init ;;
     found <- bucket_exists bucket_name ;;
     (if negb found then
        echo true ("Error: Bucket '" ++ bucket_name
                   ++ "' not found or not accessible") ;;
        sys_exit 1
      else ret tt) ;;
     ok <- upload_file file_path bucket_name blob_name public ;;
     if ok : bool then
       echo false ("Successfully uploaded: " ++ show file_path)
     else
       echo true ("Failed to upload: " ++ show file_path) ;;
       sys_exit 1)
    except_Exception.

Fixpoint echo_errors (l : list string) : M unit :=
  match l with
  | [] => ret tt
  | error :: l' => echo false ("  - " ++ error) ;; echo_errors l'
  end.

(** [upload_dir], lines 265-295: the body of the command. *)
Definition upload_dir (directory_path : path) (bucket_name : string)
    (prefix : string) (public : bool) (max_workers : Z) : M unit :=
  try_except
    (GCSUploader_init ;;
     found <- bucket_exists bucket_name ;;
     (if negb found then
        echo true ("Error: Bucket '" ++ bucket_name
                   ++ "' not found or not accessible") ;;
        sys_exit 1
      else ret tt) ;;
     res <- upload_directory directory_path bucket_name prefix public
              max_workers ;;
     echo false "Upload complete:" ;;
     echo false ("  Successful: " ++ str_nat (success res)) ;;
     echo false ("  Failed: " ++ str_nat (failed res)) ;;
     (match errors res with
      | [] => ret tt
      | _ => echo false "Errors:" ;; echo_errors (errors res)
      end) ;;
     if Nat.ltb 0 (failed res) then sys_exit 1 else ret tt)
    except_Exception.

End Uploader.

(** The exit status of the process that ran a command. *)
Definition exit_status (m : M unit) : Z :=
  match fst m with
  | Ret _ => 0
  | Raise (SystemExit code) => code
  | Raise _ => 1
  end.

(** * Vocabulary of the properties *)

(** The task the loop of lines 146-150 builds for the file at [rel] below
    the directory. *)
Definition task_of (w : World) (local_dir_path : path) (prefix : string)
    (rel : path) : task :=
  (local_dir_path ++ rel, blob_name_of (os_flavour w) prefix rel).

(** The regular files below a directory of the local tree, as paths
    relative to it; none when the path is no directory. *)
Definition files_below (w : World) (local_dir_path : path) : list path :=
  match resolve (fs w) local_dir_path with
  | Some (Dir es) => regular_files (Dir es)
  | _ => []
  end.

Definition tasks (w : World) (root : path) (prefix : string) : list task :=
  map (task_of w root prefix) (files_below w root).

(** The file is there, the store accepts the write and, when the object is
    to be public, the visibility change. *)
Definition task_succeeds (w : World) (bucket_name : string) (public : bool)
    (t : task) : bool :=
  match path_exists w (fst t) with
  | Present =>
      match upload_from_filename w bucket_name (snd t) (fst t) with
      | None =>
          if public then
            match make_public w bucket_name (snd t) with
            | None => true
            | Some _ => false
            end
          else true
      | Some _ => false
      end
  | _ => false
  end.

(** The store calls of one upload, in order. *)
Definition task_calls (w : World) (bucket_name : string) (public : bool)
    (t : task) : list event :=
  match path_exists w (fst t) with
  | Present =>
      EvUploadFromFilename bucket_name (snd t) (fst t) ::
      match upload_from_filename w bucket_name (snd t) (fst t) with
      | None => if public then [EvMakePublic bucket_name (snd t)] else []
      | Some _ => []
      end
  | _ => []
  end.

Definition is_store_call (ev : event) : bool :=
  match ev with
  | EvUploadFromFilename _ _ _ | EvMakePublic _ _ | EvReload _ => true
  | _ => false
  end.

Definition store_calls (tr : list event) : list event :=
  filter is_store_call tr.

(** The events of a running task: a store write, a visibility change, a
    tick of the progress bar. *)
Definition is_task_event (ev : event) : bool :=
  match ev with
  | EvUploadFromFilename _ _ _ | EvMakePublic _ _ | EvPbarUpdate => true
  | _ => false
  end.

(** What the batch records for one task: [None] for a success, the entry
    of [errors] for a failure. *)
Definition failure_of (w : World) (bucket_name : string) (public : bool)
    (t : task) : option string :=
  match path_exists w (fst t) with
  | StatFails msg =>
      Some ("Error uploading " ++ str_path (os_flavour w) (fst t) ++ ": "
            ++ msg)%string
  | _ =>
      if task_succeeds w bucket_name public t then None
      else Some ("Failed to upload: " ++ str_path (os_flavour w) (fst t))%string
  end.

Definition record (res : results) (o : option string) : results :=
  match o with
  | None => mk_results (success res + 1) (failed res) (errors res)
  | Some msg => mk_results (success res) (failed res + 1) (errors res ++ [msg])
  end.

Definition failures (w : World) (bucket_name : string) (public : bool)
    (l : list task) : list string :=
  flat_map (fun t => match failure_of w bucket_name public t with
                     | Some msg => [msg]
                     | None => []
                     end) l.

Definition is_nil {A} (l : list A) : bool :=
  match l with [] => true | _ => false end.

(** The client could be built and the bucket answers [reload]. *)
Definition bucket_accessible (w : World) (bucket_name : string) : Prop :=
  client_new w = None /\ reload w bucket_name = None.

(** In a run with events [tr], the task's object was written and the task
    succeeded. *)
Definition uploaded (w : World) (tr : list event) (bucket_name : string)
    (public : bool) (t : task) : Prop :=
  In (EvUploadFromFilename bucket_name (snd t) (fst t)) tr /\
  task_succeeds w bucket_name public t = true.

(** The key used when [blob_name] may be left out. *)
Definition blob_name_or_default (blob_name : option string) (p : path)
  : string :=
  match blob_name with
  | None => name p
  | Some b => b
  end.

(** The Key Mapper as the specification words it: the prefix, then the
    relative path with [/] between its components. *)
Definition key_mapper_spec (prefix : string) (relative_path : path) : string :=
  (prefix ++ String.concat "/" relative_path)%string.

Fixpoint no_backslash (s : string) : bool :=
  match s with
  | EmptyString => true
  | String c s' => negb (Ascii.eqb c backslash) && no_backslash s'
  end.

Definition rglob_entries (es : list (string * node)) : list path :=
  flat_map (fun e => map (cons (fst e)) (rglob (snd e))) es.

Definition direct_files (es : list (string * node)) : list path :=
  flat_map (fun e => match snd e with File => [[fst e]] | _ => [] end) es.

Definition regular_entries (es : list (string * node)) : list path :=
  flat_map (fun e => map (cons (fst e)) (regular_files (snd e))) es.

(** The first error the walk meets among the entries it lists. *)
Fixpoint denied_at (n : node) (rels : list path) : option string :=
  match rels with
  | [] => None
  | rel :: rels' =>
      match stat n rel with
      | StatError msg => Some msg
      | _ => denied_at n rels'
      end
  end.

(** The [OSError] that ends the walk of a directory, if any: the root
    cannot be examined, or an entry below it cannot. *)
Definition walk_error (w : World) (root : path) : option string :=
  match stat (fs w) root with
  | StatError msg => Some msg
  | StatNode (Dir es) => denied_at (Dir es) (rglob (Dir es))
  | _ => None
  end.

(** A tree all of whose entries can be examined. *)
Fixpoint no_denied (n : node) : bool :=
  match n with
  | Denied _ => false
  | Dir es =>
      (fix all (es : list (string * node)) : bool :=
         match es with
         | [] => true
         | (_, child) :: es' => no_denied child && all es'
         end) es
  | _ => true
  end.

Definition wf_entries (es : list (string * node)) : Prop :=
  forall c child, In (c, child) es -> find_entry c es = Some child.

(** ** Sample worlds *)

Definition site : node :=
  Dir [("site",
        Dir [("index.html", File);
             ("img", Dir [("a.png", File); ("sock", Special)]);
             (".hidden", File);
             ("empty", Dir []);
             ("cache", Dir [("tmp", Dir []); ("lock", Special)])]);
       ("notes.txt", File)].

(** A store that refuses one write and one visibility change, a file that
    cannot be examined, and a pool whose futures complete last first. *)
Definition rough : World :=
  {| os_flavour := Windows;
     project_id := "demo";
     fs := site;
     path_exists := fun p =>
       if list_eq_dec string_dec p ["site"; ".hidden"]
       then StatFails "Permission denied" else Present;
     client_new := None;
     reload := fun b =>
       if String.eqb b "gone" then Some (StoreNotFound "404") else None;
     upload_from_filename := fun _ k _ =>
       if String.eqb k "data/index.html" then Some (StoreForbidden "403")
       else None;
     make_public := fun _ k =>
       if String.eqb k "data/img/a.png" then Some (StoreTransfer "timeout")
       else None;
     as_completed := @rev (list string * string) |}.

(** A store that accepts everything. *)
Definition calm : World :=
  {| os_flavour := Posix;
     project_id := "demo";
     fs := site;
     path_exists := fun _ => Present;
     client_new := None;
     reload := fun _ => None;
     upload_from_filename := fun _ _ _ => None;
     make_public := fun _ _ => None;
     as_completed := fun l => l |}.

(** * Listing the buckets *)

(** What [list(self.client.list_buckets())] yields: the names of the
    buckets, or the error the store raised on the way. *)
Inductive listing :=
| Listed (names : list string)
| ListingFails (e : store_error).

(** [GCSUploader.list_buckets], lines 188-197. *)
Definition GCSUploader_list_buckets (answer : listing) : M (list string) :=
  try_except
    (bucket_names <-
       match answer with
       | Listed names => ret names
       | ListingFails e => raise (exn_of_store_error e)
       end ;;
     log INFO ("Found " ++ str_nat (List.length bucket_names)
               ++ " accessible buckets") ;;
     ret bucket_names)
    (fun e =>
       if is_Exception e then
         Some (log ERROR ("Failed to list buckets: " ++ exn_str e) ;;
               ret [])
       else None).

Fixpoint echo_buckets (l : list string) : M unit :=
  match l with
  | [] => ret tt
  | bucket :: l' => echo false ("  - " ++ bucket) ;; echo_buckets l'
  end.

(** [list_buckets], lines 300-319. *)
Definition list_buckets (w : World) (answer : listing) : M unit :=
  try_except
    (GCSUploader_init w ;;
     buckets <- GCSUploader_list_buckets answer ;;
     match buckets with
     | [] => echo false "No accessible buckets found"
     | _ => echo false "Accessible buckets:" ;; echo_buckets buckets
     end)
    except_Exception.

(** A store that accepts everything and a tree with a directory [vault]
    whose sub-directory can be listed but not searched, and a directory
    [mixed] with a file beside an entry that cannot be examined. *)
Definition guarded : World :=
  {| os_flavour := Posix;
     project_id := "demo";
     fs := Dir [("vault",
                 Dir [("sub", Dir [("x", Denied "Permission denied")])]);
                ("mixed",
                 Dir [("a.txt", File); ("b", Denied "Permission denied")])];
     path_exists := fun _ => Present;
     client_new := None;
     reload := fun _ => None;
     upload_from_filename := fun _ _ _ => None;
     make_public := fun _ _ => None;
     as_completed := fun l => l |}.

(** ** The commands as [click] runs them *)

(** Before the body of a command runs, [click] checks the command line
    ([click.Path(exists=True)] and the options): [None] when it accepts
    it, [Some usage] with what it prints when it refuses it and exits
    with status 2. *)
Definition click_invoke (refusal : option string) (body : M unit) : M unit :=
  match refusal with
  | None => body
  | Some usage => echo true usage ;; raise (SystemExit 2)
  end.

Definition cli_upload (refusal : option string) (w : World)
    (file_path : path) (bucket_name : string) (blob_name : option string)
    (public : bool) : M unit :=
  click_invoke refusal (upload w file_path bucket_name blob_name public).

Definition cli_upload_dir (refusal : option string) (w : World)
    (directory_path : path) (bucket_name : string) (prefix : string)
    (public : bool) (max_workers : Z) : M unit :=
  click_invoke refusal
    (upload_dir w directory_path bucket_name prefix public max_workers).

(** A world without credentials. *)
Definition locked : World :=
  {| os_flavour := Posix;
     project_id := "demo";
     fs := site;
     path_exists := fun _ => Present;
     client_new := Some (NoCredentials "no credentials");
     reload := fun _ => None;
     upload_from_filename := fun _ _ _ => None;
     make_public := fun _ _ => None;
     as_completed := fun l => l |}.

(** A file name that holds neither [/] nor a backslash. *)
Fixpoint plain_name (s : string) : bool :=
  match s with
  | EmptyString => true
  | String c s' =>
      negb (Ascii.eqb c slash) && negb (Ascii.eqb c backslash) && plain_name s'
  end.

(** ** Views of a run *)



Definition is_echo (ev : event) : bool :=
  match ev with EvEcho _ _ => true | _ => false end.

Definition is_error_log (ev : event) : bool :=
  match ev with EvLog ERROR _ => true | _ => false end.

(** The lines [upload_dir] echoes for a result, lines 281-288. *)
Definition report (res : results) : list event :=
  [EvEcho false "Upload complete:";
   EvEcho false ("  Successful: " ++ str_nat (success res));
   EvEcho false ("  Failed: " ++ str_nat (failed res))]
  ++ match errors res with
     | [] => []
     | _ => EvEcho false "Errors:"
            :: map (fun error => EvEcho false ("  - " ++ error)) (errors res)
     end.

(** * The warehouse export of [src/app/bigquery.py] *)

Module BigQuery.

(** A calendar day as [date.toordinal()]: day 1 is 0001-01-01, the last
    day is [MAXORDINAL]. How a day is printed belongs to the standard
    library and is a field of the world. *)
Definition MAXORDINAL : Z := 3652059.

Inductive exn :=
| ValueError (msg : string)
| OverflowError (msg : string)
| AttributeError (msg : string)
| KeyError (key : string)
| OtherException (msg : string).

Inductive event :=
| EvPrint (text : string)
| EvReadGbq (query : string)
| EvToParquet (df : nat) (path : string).

Inductive outcome (A : Type) :=
| Ret (a : A)
| Raise (e : exn).
Arguments Ret {A} a.
Arguments Raise {A} e.

(** What [bpd.read_gbq] and [df.to_parquet] answer. *)
Inductive read_answer :=
| Frame (df : nat)
| ReadValueError (msg : string)
| ReadFails (msg : string).

Inductive write_answer :=
| Written
| WriteValueError (msg : string)
| WriteFails (msg : string).

Record World := {
  (** the day the n-th call of [datetime.now()] falls on *)
  now : nat -> Z;
  (** [str(date)] *)
  isoformat : Z -> string;
  (** [date.strftime("%Y%m%d")] *)
  strftime_Ymd : Z -> string;
  read_gbq : string -> read_answer;
  to_parquet : nat -> string -> write_answer
}.

(** A computation reads the clock, prints and calls the warehouse: it
    takes the number of clock readings made so far and yields its
    outcome, the new number and its events. *)
Definition M (A : Type) : Type := nat -> outcome A * nat * list event.

Definition ret {A} (a : A) : M A := fun n => (Ret a, n, []).
Definition raise {A} (e : exn) : M A := fun n => (Raise e, n, []).
Definition emit (ev : event) : M unit := fun n => (Ret tt, n, [ev]).

Definition bind {A B} (m : M A) (f : A -> M B) : M B :=
  fun n =>
    match m n with
    | (Ret a, n', t) => let '(r, n'', t') := f a n' in (r, n'', t ++ t')
    | (Raise e, n', t) => (Raise e, n', t)
    end.

Declare Scope bq_scope.
Delimit Scope bq_scope with bq.
Notation "x <- m ;; k" := (bind m (fun x => k))
  (at level 61, m at next level, right associativity) : bq_scope.
Notation "m ;; k" := (bind m (fun _ => k))
  (at level 61, right associativity) : bq_scope.
Local Open Scope bq_scope.

Section Exporter.
Variable w : World.

(** [datetime.now().date()]. *)
Definition today : M Z := fun n => (Ret (now w n), S n, []).

Definition print (text : string) : M unit := emit (EvPrint text).

Definition nl : string := String (ascii_of_nat 10) EmptyString.

Fixpoint spaces (n : nat) : string :=
  match n with
  | O => EmptyString
  | S n' => String " "%char (spaces n')
  end.

(** [f"{date_partition}"]: [None] prints as [None]. *)
Definition str_option (o : option string) : string :=
  match o with
  | Some s => s
  | None => "None"
  end.

(** The f-strings of lines 38-43 and 49-53. *)
Definition query_text (project dataset table : string)
    (date_partition : option string) (sharded : bool) (filter_date : Z)
  : string :=
  if negb sharded then
    (nl ++ spaces 16 ++ nl
     ++ spaces 16 ++ "select * from " ++ project ++ "." ++ dataset ++ "."
     ++ table ++ nl
     ++ spaces 16 ++ "where " ++ str_option date_partition ++ " = '"
     ++ isoformat w filter_date ++ "'" ++ nl
     ++ spaces 16 ++ nl
     ++ spaces 16)%string
  else
    (nl ++ nl
     ++ spaces 24 ++ "select * from " ++ project ++ "." ++ dataset ++ "."
     ++ table ++ "_" ++ strftime_Ymd w filter_date ++ nl
     ++ spaces 20 ++ nl
     ++ spaces 24)%string.

(** [date_now - timedelta(days=day)]: a day outside the calendar is an
    [OverflowError]. *)
Definition days_before (date_now day : Z) : M Z :=
  let o := (date_now - day)%Z in
  if ((0 <? o) && (o <=? MAXORDINAL))%Z then ret o
  else raise (OverflowError "date value out of range").

(** [range(1, refresh_window + 1)]. *)
Definition day_range (refresh_window : Z) : list Z :=
  map Z.of_nat (seq 1 (Z.to_nat refresh_window)).

(** Lines 34-54: the loop of [_query]; [query_list] is the list so far. *)
Fixpoint query_loop (project dataset table : string)
    (date_partition : option string) (sharded : bool) (date_now : Z)
    (days : list Z) (query_list : list string) : M (list string) :=
  match days with
  | [] => ret query_list
  | day :: days' =>
      filter_date <- days_before date_now day ;;
      let query :=
        query_text project dataset table date_partition sharded filter_date in
      (if negb sharded then print query else ret tt) ;;
      query_loop project dataset table date_partition sharded date_now days'
        (query_list ++ [query])
  end.

(** [BigFrameFrameExporter._query], lines 30-56. *)
Definition _query (project dataset table : string) (refresh_window : Z)
    (date_partition : option string) (sharded : bool) : M (list string) :=
  date_now <- today ;;
  query_loop project dataset table date_partition sharded date_now
    (day_range refresh_window) [].

(** [BigFrameFrameExporter._run_query], lines 16-21: the frame, [None]
    after a [ValueError]. *)
Definition _run_query (query : string) : M (option nat) :=
  emit (EvReadGbq query) ;;
  match read_gbq w query with
  | Frame df => ret (Some df)
  | ReadValueError msg => print msg ;; ret None
  | ReadFails msg => raise (OtherException msg)
  end.

(** [BigFrameFrameExporter._to_gcs], lines 23-28. [None] has no
    [to_parquet], and the handler catches [ValueError] only. *)
Definition _to_gcs (df : option nat) (bucket file_name : string) : M unit :=
  let full_bucket_path := ("gs://" ++ bucket ++ "/" ++ file_name)%string in
  match df with
  | None =>
      raise (AttributeError
               "'NoneType' object has no attribute 'to_parquet'")
  | Some df =>
      emit (EvToParquet df full_bucket_path) ;;
      match to_parquet w df full_bucket_path with
      | Written => ret tt
      | WriteValueError msg => print msg
      | WriteFails msg => raise (OtherException msg)
      end
  end.

(** The entries of [tables.json]: a key that is missing is [None]. *)
Record table := {
  refresh_window : option Z;
  date_partition_field : option (option string);
  sharded : option bool;
  table_name : option string
}.

Record table_group := {
  project : option string;
  dataset : option string;
  tables : option (list table)
}.

(** [d[key]]. *)
Definition item {A} (key : string) (value : option A) : M A :=
  match value with
  | Some v => ret v
  | None => raise (KeyError key)
  end.

Fixpoint for_each {A} (body : A -> M unit) (l : list A) : M unit :=
  match l with
  | [] => ret tt
  | x :: l' => body x ;; for_each body l'
  end.

(** Lines 75-76: one query of a table. *)
Definition export_query (table : string) (date_now : Z) (q : string)
  : M unit :=
  df <- _run_query q ;;
  _to_gcs df "parquet_files_test"
    (table ++ "_" ++ isoformat w date_now ++ "_*.parquet").

(** Lines 69-76: one table of a group. *)
Definition export_table (project dataset : string) (date_now : Z) (t : table)
  : M unit :=
  refresh_window <- item "refresh_window" (refresh_window t) ;;
  date_partition_field <- item "date_partition_field" (date_partition_field t) ;;
  sharded <- item "sharded" (sharded t) ;;
  table <- item "table_name" (table_name t) ;;
  queries <- _query project dataset table refresh_window date_partition_field
               sharded ;;
  for_each (export_query table date_now) queries.

(** Lines 66-76: one group. *)
Definition export_group (date_now : Z) (tl : table_group) : M unit :=
  project <- item "project" (project tl) ;;
  dataset <- item "dataset" (dataset tl) ;;
  tables <- item "tables" (tables tl) ;;
  for_each (export_table project dataset date_now) tables.

(** [BigFrameFrameExporter.export_to_gcs], lines 59-76. The clock is
    read for [date_now] and again for [run_ts]. *)
Definition export_to_gcs (table_list : option (list table_group)) : M unit :=
  match table_list with
  | None => print "No table list"
  | Some table_list =>
      date_now <- today ;;
      _ <- today ;;
      for_each (export_group date_now) table_list
  end.

End Exporter.

(** A sample warehouse that answers every query; a day is printed as
    its ordinal. *)
Definition sample : World :=
  {| now := fun _ => 739000%Z;
     isoformat := fun d => NilZero.string_of_int (Z.to_int d);
     strftime_Ymd := fun d => NilZero.string_of_int (Z.to_int d);
     read_gbq := fun q => Frame (String.length q);
     to_parquet := fun _ _ => Written |}.

(** A sample warehouse that refuses every query with a [ValueError]. *)
Definition refusing : World :=
  {| now := fun _ => 739000%Z;
     isoformat := fun d => NilZero.string_of_int (Z.to_int d);
     strftime_Ymd := fun d => NilZero.string_of_int (Z.to_int d);
     read_gbq := fun _ => ReadValueError "bad query";
     to_parquet := fun _ _ => Written |}.

Definition sales : table :=
  {| refresh_window := Some 2%Z;
     date_partition_field := Some (Some "day");
     sharded := Some false;
     table_name := Some "sales" |}.

Definition shop : table_group :=
  {| project := Some "acme"; dataset := Some "shop"; tables := Some [sales] |}.

(** The error of [None.to_parquet]. *)
Definition no_frame : exn :=
  AttributeError "'NoneType' object has no attribute 'to_parquet'".

(** A run that has met a refused query has stopped right after it. *)
Definition stops_at_refusal (w : World) {A}
    (run : outcome A * nat * list event) : Prop :=
  forall q msg,
    In (EvReadGbq q) (snd run) ->
    read_gbq w q = ReadValueError msg ->
    fst (fst run) = Raise no_frame /\
    exists before, snd run = before ++ [EvReadGbq q; EvPrint msg].


Definition is_read (ev : event) : bool :=
  match ev with EvReadGbq _ => true | _ => false end.

End BigQuery.

(** * Properties *)

(** ** The local tree *)

(** Induction on a tree with the hypothesis for every entry of a
    directory. *)
Section NodeInduction.
Variable P : node -> Prop.
Hypothesis P_File : P File.
Hypothesis P_Special : P Special.
Hypothesis P_Dir :
  forall es, Forall (fun e => P (snd e)) es -> P (Dir es).
Hypothesis P_Denied : forall msg, P (Denied msg).

Fixpoint node_induction (n : node) : P n :=
  match n with
  | File => P_File
  | Special => P_Special
  | Dir es =>
      P_Dir es
        ((fix entries (es : list (string * node))
            : Forall (fun e => P (snd e)) es :=
            match es with
            | [] => Forall_nil _
            | (c, child) :: es' =>
                Forall_cons (c, child) (node_induction child) (entries es')
            end) es)
  | Denied msg => P_Denied msg
  end.
End NodeInduction.

Lemma rglob_Dir es :
  rglob (Dir es) = map (fun e => [fst e]) es ++ rglob_entries es.
Proof.
  unfold rglob_entries. cbn [rglob]. f_equal.
  induction es as [|[c child] es IH]; simpl in *; [reflexivity|].
  now rewrite IH.
Qed.

Lemma regular_files_Dir es :
  regular_files (Dir es) = direct_files es ++ regular_entries es.
Proof.
  unfold direct_files, regular_entries. cbn [regular_files]. f_equal.
  - induction es as [|[c child] es IH]; simpl in *; [reflexivity|].
    rewrite <- IH. now destruct child.
  - induction es as [|[c child] es IH]; simpl in *; [reflexivity|].
    now rewrite IH.
Qed.

Lemma wf_node_Dir_cons c child es :
  wf_node (Dir ((c, child) :: es)) =
  names_fresh c es && wf_node child && wf_node (Dir es).
Proof. reflexivity. Qed.

Lemma names_fresh_In c es c' child :
  names_fresh c es = true -> In (c', child) es -> String.eqb c c' = false.
Proof.
  induction es as [|[n x] es IH]; simpl; [tauto|].
  intros H [E|HIn].
  - inversion E; subst. apply andb_prop in H as [H _].
    rewrite String.eqb_sym. now apply negb_true_iff.
  - apply andb_prop in H as [_ H]. auto.
Qed.

Lemma wf_node_entries es :
  wf_node (Dir es) = true ->
  wf_entries es /\ Forall (fun e => wf_node (snd e) = true) es.
Proof.
  induction es as [|[c child] es IH]; intros H.
  - split; [intros ? ? []|constructor].
  - rewrite wf_node_Dir_cons in H.
    apply andb_prop in H as [H Hes]. apply andb_prop in H as [Hfresh Hchild].
    destruct (IH Hes) as [IH1 IH2]. split.
    + intros c' child' [E|HIn]; simpl.
      * inversion E; subst. now rewrite String.eqb_refl.
      * rewrite (names_fresh_In _ _ _ _ Hfresh HIn). now apply IH1.
    + constructor; assumption.
Qed.

Lemma resolve_app fs root rel :
  resolve fs (root ++ rel) =
  match resolve fs root with
  | Some n => resolve n rel
  | None => None
  end.
Proof.
  revert fs. induction root as [|c root IH]; intros fs; simpl; [reflexivity|].
  destruct fs; try reflexivity.
  destruct (find_entry c entries); [apply IH|reflexivity].
Qed.

Lemma stat_Denied msg p : stat (Denied msg) p = StatError msg.
Proof. now destruct p. Qed.

(** [stat] of a path below a directory goes through the directory. *)
Lemma stat_app fs root rel :
  stat fs (root ++ rel) =
  match stat fs root with
  | StatNode n => stat n rel
  | StatMissing => StatMissing
  | StatError msg => StatError msg
  end.
Proof.
  revert fs. induction root as [|c root IH]; intros fs.
  - cbn [app]. destruct fs; cbn [stat]; try reflexivity.
    apply stat_Denied.
  - cbn [app]. destruct fs as [| |es|msg]; cbn [stat]; try reflexivity.
    destruct (find_entry c es); [apply IH|reflexivity].
Qed.

(** What [stat] answers, in terms of what the tree holds. *)
Lemma stat_cases n p :
  match stat n p with
  | StatNode m => resolve n p = Some m /\ forall msg, m <> Denied msg
  | StatMissing => resolve n p = None
  | StatError msg => is_dir n p = false /\ is_file n p = false
  end.
Proof.
  revert n. induction p as [|c p IH]; intros n.
  - destruct n; cbn; split; try reflexivity; discriminate.
  - destruct n as [| |es|msg]; cbn [stat resolve]; try reflexivity.
    + destruct (find_entry c es) as [child|] eqn:Hc; [|reflexivity].
      specialize (IH child). unfold is_dir, is_file in *. cbn [resolve].
      now rewrite Hc.
    + split; reflexivity.
Qed.

Lemma resolve_Dir_stat n p es :
  resolve n p = Some (Dir es) -> stat n p = StatNode (Dir es).
Proof.
  intros H. pose proof (stat_cases n p) as Hc.
  destruct (stat n p) as [m| |msg].
  - destruct Hc as [Hc _]. congruence.
  - congruence.
  - destruct Hc as [Hc _]. unfold is_dir in Hc. now rewrite H in Hc.
Qed.

Lemma is_file_stat n p :
  is_file n p = match stat n p with StatNode File => true | _ => false end.
Proof.
  pose proof (stat_cases n p) as Hc. unfold is_file.
  destruct (stat n p) as [m| |msg].
  - destruct Hc as [-> _]. reflexivity.
  - now rewrite Hc.
  - destruct Hc as [_ Hc]. exact Hc.
Qed.

Lemma relative_to_app root rel : relative_to (root ++ rel) root = Some rel.
Proof.
  induction root as [|c root IH]; simpl; [reflexivity|].
  now rewrite String.eqb_refl.
Qed.

Lemma filter_map_cons_is_file full c child l :
  find_entry c full = Some child ->
  filter (is_file (Dir full)) (map (cons c) l) =
  map (cons c) (filter (is_file child) l).
Proof.
  intros Hfind. induction l as [|p l IH]; simpl; [reflexivity|].
  unfold is_file at 1. simpl. rewrite Hfind.
  fold (is_file child p). destruct (is_file child p); simpl; now rewrite IH.
Qed.

(** Below a well-formed directory, the entries of [rglob('*')] that are
    regular files are the regular files of the tree, in the same order. *)
Lemma filter_is_file_rglob n :
  wf_node n = true ->
  filter (is_file n) (rglob n) = regular_files n.
Proof.
  induction n as [| |es IH|msg] using node_induction; intros Hwf;
    try reflexivity.
  rewrite rglob_Dir, regular_files_Dir, filter_app.
  destruct (wf_node_entries es Hwf) as [Hfind Hwfs].
  assert (G1 : forall sub,
             incl sub es ->
             filter (is_file (Dir es)) (map (fun e => [fst e]) sub) =
             direct_files sub).
  { induction sub as [|[c child] sub IHsub]; intros Hincl; [reflexivity|].
    assert (HIn : In (c, child) es) by (apply Hincl; now left).
    assert (Hsub : incl sub es) by (intros x Hx; apply Hincl; now right).
    pose proof (Hfind _ _ HIn) as Hc.
    unfold direct_files in *. cbn [map flat_map filter fst snd].
    rewrite (IHsub Hsub). unfold is_file at 1. cbn [resolve]. rewrite Hc.
    destruct child; reflexivity. }
  assert (G2 : forall sub,
             incl sub es ->
             filter (is_file (Dir es)) (rglob_entries sub) =
             regular_entries sub).
  { induction sub as [|[c child] sub IHsub]; intros Hincl; [reflexivity|].
    assert (HIn : In (c, child) es) by (apply Hincl; now left).
    assert (Hsub : incl sub es) by (intros x Hx; apply Hincl; now right).
    pose proof (Hfind _ _ HIn) as Hc.
    unfold rglob_entries, regular_entries in *. cbn [flat_map fst snd].
    rewrite filter_app, (IHsub Hsub).
    rewrite (filter_map_cons_is_file es c child _ Hc).
    rewrite Forall_forall in IH, Hwfs.
    pose proof (IH _ HIn (Hwfs _ HIn)) as IHchild. cbn [snd] in IHchild.
    now rewrite IHchild. }
  now rewrite G1, G2 by apply incl_refl.
Qed.

Lemma find_entry_In c es child :
  find_entry c es = Some child -> exists c', In (c', child) es.
Proof.
  induction es as [|[n x] es IH]; simpl; [discriminate|].
  destruct (String.eqb n c).
  - intros E; inversion E; subst. exists n. now left.
  - intros H. destruct (IH H) as [c' Hc']. exists c'. now right.
Qed.

Lemma wf_node_resolve fs p n :
  wf_node fs = true -> resolve fs p = Some n -> wf_node n = true.
Proof.
  revert fs. induction p as [|c p IH]; intros fs Hwf; simpl.
  - intros E; inversion E; now subst.
  - destruct fs as [| |es|msg]; try discriminate.
    destruct (find_entry c es) as [child|] eqn:Hfind; [|discriminate].
    apply IH. destruct (find_entry_In _ _ _ Hfind) as [c' HIn].
    destruct (wf_node_entries es Hwf) as [_ Hall].
    rewrite Forall_forall in Hall. exact (Hall _ HIn).
Qed.

(** A tree without an entry that cannot be examined has no path on which
    [stat] fails. *)
Lemma no_denied_Dir es :
  no_denied (Dir es) = true -> Forall (fun e => no_denied (snd e) = true) es.
Proof.
  induction es as [|[c child] es IH]; intros H; [constructor|].
  change (no_denied (Dir ((c, child) :: es)))
    with (no_denied child && no_denied (Dir es)) in H.
  apply andb_prop in H as [Hc Hes]. constructor; auto.
Qed.

Lemma no_denied_stat p : forall n,
  no_denied n = true -> forall msg, stat n p <> StatError msg.
Proof.
  induction p as [|c p IH]; intros n Hn msg.
  - destruct n; cbn; discriminate.
  - destruct n as [| |es|m]; cbn [stat]; try discriminate.
    destruct (find_entry c es) as [child|] eqn:Hc; [|discriminate].
    apply IH. destruct (find_entry_In _ _ _ Hc) as [c' Hin].
    pose proof (no_denied_Dir es Hn) as Hall.
    rewrite Forall_forall in Hall. exact (Hall _ Hin).
Qed.

Lemma no_denied_denied_at n rels :
  no_denied n = true -> denied_at n rels = None.
Proof.
  intros Hn. induction rels as [|rel rels IH]; [reflexivity|].
  cbn [denied_at]. pose proof (no_denied_stat rel n Hn) as H.
  destruct (stat n rel); try assumption. now destruct (H msg).
Qed.

(** Where every entry can be examined the walk meets no error. *)
Lemma no_denied_walk w root :
  match stat (fs w) root with
  | StatNode n => no_denied n = true
  | StatMissing => True
  | StatError _ => False
  end ->
  walk_error w root = None.
Proof.
  unfold walk_error. destruct (stat (fs w) root) as [[| |es|msg]| |msg];
    try reflexivity; try contradiction.
  intros H. now apply no_denied_denied_at.
Qed.

(** ** The effect monad *)

Lemma fst_bind_Ret {A B} (m : M A) (f : A -> M B) a :
  fst m = Ret a -> fst (bind m f) = fst (f a).
Proof.
  destruct m as [r t]; simpl; intros ->. now destruct (f a).
Qed.

Lemma snd_bind_Ret {A B} (m : M A) (f : A -> M B) a :
  fst m = Ret a -> snd (bind m f) = snd m ++ snd (f a).
Proof.
  destruct m as [r t]; simpl; intros ->. now destruct (f a).
Qed.

Lemma bind_Raise {A B} (m : M A) (f : A -> M B) e :
  fst m = Raise e -> bind m f = (Raise e, snd m).
Proof.
  destruct m as [r t]; simpl; now intros ->.
Qed.

Lemma bind_ret_l {A B} (a : A) (f : A -> M B) : bind (ret a) f = f a.
Proof.
  unfold bind, ret. now destruct (f a).
Qed.

(** ** Enumeration *)

Section Enumeration.
Variable w : World.

(** The loop of lines 146-150 over the entries below a directory [n] at
    [root]: it stops at the first entry that cannot be examined, and
    otherwise keeps the regular files. *)
Lemma collect_map root n prefix l found :
  stat (fs w) root = StatNode n ->
  collect w root prefix (map (app root) l) found =
  match denied_at n l with
  | Some msg => (Raise (OSError msg), [])
  | None =>
      ret (found ++
           map (task_of w root prefix)
             (filter (fun rel => is_file (fs w) (root ++ rel)) l))
  end.
Proof.
  intros Hroot. revert found.
  induction l as [|rel l IH]; intros found; cbn [map collect denied_at filter].
  - now rewrite app_nil_r.
  - rewrite is_file_stat. unfold Path_is_file.
    rewrite stat_app, Hroot.
    destruct (stat n rel) as [[| |es|m]| |msg];
      try (rewrite bind_ret_l, IH; destruct (denied_at n l); reflexivity);
      try reflexivity.
    rewrite bind_ret_l, relative_to_app, IH.
    destruct (denied_at n l); [reflexivity|].
    cbn [map]. unfold ret. now rewrite <- app_assoc.
Qed.

(** [files_to_upload] is the list of the regular files below the
    directory, each with its key, unless the walk meets an entry that
    cannot be examined. *)
Lemma files_to_upload_spec root prefix :
  wf_node (fs w) = true ->
  is_dir (fs w) root = true ->
  collect w root prefix (rglob_from w root) [] =
  match walk_error w root with
  | Some msg => (Raise (OSError msg), [])
  | None => ret (map (task_of w root prefix) (files_below w root))
  end.
Proof.
  intros Hwf Hdir. unfold rglob_from, files_below, walk_error, is_dir in *.
  destruct (resolve (fs w) root) as [n|] eqn:Hres; [|discriminate].
  destruct n as [| |es|msg]; try discriminate.
  pose proof (resolve_Dir_stat _ _ _ Hres) as Hstat. rewrite Hstat.
  rewrite (collect_map root (Dir es) prefix _ [] Hstat).
  destruct (denied_at (Dir es) (rglob (Dir es))); [reflexivity|].
  cbn [app]. f_equal. f_equal.
  rewrite <- (filter_is_file_rglob (Dir es) (wf_node_resolve _ _ _ Hwf Hres)).
  apply filter_ext. intros rel. unfold is_file.
  now rewrite resolve_app, Hres.
Qed.
End Enumeration.

(** ** One upload *)

Section OneUpload.
Variable w : World.

Lemma upload_file_result p b k public :
  fst (upload_file w p b (Some k) public) =
  match path_exists w p with
  | StatFails msg => Raise (OSError msg)
  | _ => Ret (task_succeeds w b public (p, k))
  end.
Proof.
  unfold upload_file, exists_now, task_succeeds, call_store. simpl.
  destruct (path_exists w p); try reflexivity.
  destruct (upload_from_filename w b k p) as [[]|]; try reflexivity.
  destruct public; try reflexivity.
  destruct (make_public w b k) as [[]|]; reflexivity.
Qed.

Lemma upload_file_calls p b k public :
  store_calls (snd (upload_file w p b (Some k) public)) =
  task_calls w b public (p, k).
Proof.
  unfold upload_file, exists_now, task_calls, call_store. simpl.
  destruct (path_exists w p); try reflexivity.
  destruct (upload_from_filename w b k p) as [[]|]; try reflexivity.
  destruct public; try reflexivity.
  destruct (make_public w b k) as [[]|]; reflexivity.
Qed.

Lemma settle_result b public res t :
  fst (settle w b public res t) = Ret (record res (failure_of w b public t)).
Proof.
  destruct t as [p k]. unfold settle, failure_of.
  pose proof (upload_file_result p b k public) as H.
  destruct (upload_file w p b (Some k) public) as [r tr]. simpl in H.
  cbn [fst snd]. subst r.
  destruct (path_exists w p); simpl;
    destruct (task_succeeds w b public (p, k)); reflexivity.
Qed.

Lemma settle_calls b public res t :
  store_calls (snd (settle w b public res t)) = task_calls w b public t.
Proof.
  destruct t as [p k]. unfold settle.
  pose proof (upload_file_result p b k public) as H.
  pose proof (upload_file_calls p b k public) as Hc.
  destruct (upload_file w p b (Some k) public) as [r tr]. simpl in H, Hc.
  rewrite <- Hc. subst r. unfold store_calls.
  destruct (path_exists w p); simpl;
    try (destruct (task_succeeds w b public (p, k)); simpl);
    rewrite ?filter_app; simpl; now rewrite ?app_nil_r.
Qed.

Lemma drain_result b public l : forall res,
  fst (drain w b public l res) =
  Ret (fold_left (fun r t => record r (failure_of w b public t)) l res).
Proof.
  induction l as [|t l IH]; intros res; simpl; [reflexivity|].
  rewrite (fst_bind_Ret _ _ _ (settle_result b public res t)). apply IH.
Qed.

Lemma drain_calls b public l : forall res,
  store_calls (snd (drain w b public l res)) =
  flat_map (task_calls w b public) l.
Proof.
  induction l as [|t l IH]; intros res; simpl; [reflexivity|].
  rewrite (snd_bind_Ret _ _ _ (settle_result b public res t)).
  unfold store_calls in *. now rewrite filter_app, settle_calls, IH.
Qed.
End OneUpload.

(** ** The batch *)

Section Batch.
Variable w : World.
Variables (bucket_name : string) (public : bool).

Let step (r : results) (t : task) : results :=
  record r (failure_of w bucket_name public t).

Lemma failure_of_None t :
  failure_of w bucket_name public t = None <->
  task_succeeds w bucket_name public t = true.
Proof.
  unfold failure_of, task_succeeds.
  destruct (path_exists w (fst t)); try (split; discriminate).
  destruct (upload_from_filename w bucket_name (snd t) (fst t));
    try (split; discriminate).
  destruct public; [|tauto].
  destruct (make_public w bucket_name (snd t)); [split; discriminate|tauto].
Qed.

Lemma fold_record l : forall res,
  let res' := fold_left step l res in
  success res' =
    success res + List.length (filter (task_succeeds w bucket_name public) l) /\
  failed res' =
    failed res +
    List.length (filter (fun t => negb (task_succeeds w bucket_name public t)) l) /\
  errors res' = errors res ++ failures w bucket_name public l.
Proof.
  induction l as [|t l IH]; intros res; simpl.
  - now rewrite !Nat.add_0_r, app_nil_r.
  - destruct (IH (step res t)) as (Hs & Hf & He).
    rewrite Hs, Hf, He. unfold step, record, failures. cbn [flat_map].
    pose proof (failure_of_None t) as Hnone.
    destruct (failure_of w bucket_name public t) as [msg|].
    + destruct (task_succeeds w bucket_name public t).
      * destruct Hnone as [_ Hnone]. discriminate Hnone. reflexivity.
      * simpl. rewrite <- app_assoc. repeat split; lia.
    + destruct Hnone as [Hnone _]. rewrite (Hnone eq_refl). simpl.
      repeat split; lia.
Qed.

Lemma length_failures l :
  List.length (failures w bucket_name public l) =
  List.length (filter (fun t => negb (task_succeeds w bucket_name public t)) l).
Proof.
  unfold failures. induction l as [|t l IH]; simpl; [reflexivity|].
  pose proof (failure_of_None t) as Hnone.
  destruct (failure_of w bucket_name public t) as [msg|].
  - destruct (task_succeeds w bucket_name public t).
    + destruct Hnone as [_ Hnone]. discriminate Hnone. reflexivity.
    + simpl. now rewrite IH.
  - destruct Hnone as [Hnone _]. rewrite (Hnone eq_refl). simpl. exact IH.
Qed.

Lemma filter_split_length {A} (f : A -> bool) (l : list A) :
  List.length (filter f l) + List.length (filter (fun x => negb (f x)) l) =
  List.length l.
Proof.
  induction l as [|x l IH]; simpl; [reflexivity|].
  destruct (f x); simpl; lia.
Qed.

Lemma Permutation_filter_length {A} (f : A -> bool) (l l' : list A) :
  Permutation l l' -> List.length (filter f l) = List.length (filter f l').
Proof.
  induction 1; simpl; try congruence.
  - destruct (f x); simpl; congruence.
  - destruct (f x), (f y); reflexivity.
Qed.

Lemma pool_sound_nil : pool_sound w -> as_completed w [] = [].
Proof.
  intros H. apply Permutation_nil, H.
Qed.

Variables (root : path) (prefix : string) (max_workers : Z).

Lemma exists_of_is_dir : is_dir (fs w) root = true -> exists_ (fs w) root = true.
Proof.
  unfold is_dir, exists_. now destruct (resolve (fs w) root).
Qed.

Lemma files_below_not_dir : is_dir (fs w) root = false -> files_below w root = [].
Proof.
  unfold is_dir, files_below.
  destruct (resolve (fs w) root) as [[| | |]|]; try reflexivity. discriminate.
Qed.

Lemma walk_error_not_dir :
  is_dir (fs w) root = false ->
  walk_error w root =
  match stat (fs w) root with StatError msg => Some msg | _ => None end.
Proof.
  unfold walk_error, is_dir. pose proof (stat_cases (fs w) root) as Hc.
  destruct (stat (fs w) root) as [[| |es|msg]| |msg]; try reflexivity.
  destruct Hc as [-> _]. discriminate.
Qed.

(** [upload_directory] with the examination of the root and the walk
    replaced by their results. *)
Lemma upload_directory_unfold :
  wf_node (fs w) = true ->
  upload_directory w root bucket_name prefix public max_workers =
  match walk_error w root with
  | Some msg => (Raise (OSError msg), [])
  | None =>
      if negb (is_dir (fs w) root) then
        (Ret no_results,
         [EvLog ERROR ("Directory not found: " ++ str_path (os_flavour w) root)])
      else
        match tasks w root prefix with
        | [] =>
            (Ret no_results,
             [EvLog WARNING ("No files found in directory: "
                             ++ str_path (os_flavour w) root)])
        | _ =>
            log INFO ("Found " ++ str_nat (List.length (tasks w root prefix))
                      ++ " files to upload") ;;
            if (max_workers <=? 0)%Z then
              raise (ValueError "max_workers must be greater than 0")
            else
              res <- drain w bucket_name public
                       (as_completed w (tasks w root prefix)) no_results ;;
              log INFO ("Upload complete: " ++ str_nat (success res)
                        ++ " successful, " ++ str_nat (failed res)
                        ++ " failed") ;;
              ret res
        end
  end.
Proof.
  intros Hwf. unfold upload_directory.
  destruct (is_dir (fs w) root) eqn:Hdir.
  - assert (Hstat : exists es, stat (fs w) root = StatNode (Dir es)).
    { unfold is_dir in Hdir.
      destruct (resolve (fs w) root) as [[| |es|msg]|] eqn:Hres;
        try discriminate.
      exists es. now apply resolve_Dir_stat. }
    destruct Hstat as [es Hstat].
    unfold Path_exists, Path_is_dir. rewrite Hstat, !bind_ret_l.
    cbn [negb orb].
    rewrite (files_to_upload_spec w root prefix Hwf Hdir).
    destruct (walk_error w root); [reflexivity|].
    rewrite bind_ret_l. fold (tasks w root prefix).
    destruct (tasks w root prefix); reflexivity.
  - rewrite (walk_error_not_dir Hdir).
    unfold Path_exists, Path_is_dir. unfold is_dir in Hdir.
    pose proof (stat_cases (fs w) root) as Hc.
    destruct (stat (fs w) root) as [[| |es|msg]| |msg]; try reflexivity.
    destruct Hc as [Hc _]. now rewrite Hc in Hdir.
Qed.
End Batch.

Section BatchOutcome.
Variable w : World.
Variables (root : path) (bucket_name prefix : string) (public : bool)
          (max_workers : Z).
Hypothesis fs_wf : wf_node (fs w) = true.
Hypothesis pool : pool_sound w.

Let todo := tasks w root prefix.
Let run := upload_directory w root bucket_name prefix public max_workers.

Lemma upload_directory_result :
  fst run =
  match walk_error w root with
  | Some msg => Raise (OSError msg)
  | None =>
      if (max_workers <=? 0)%Z && negb (is_nil todo) then
        Raise (ValueError "max_workers must be greater than 0")
      else
        Ret (fold_left
               (fun r t => record r (failure_of w bucket_name public t))
               (as_completed w todo) no_results)
  end.
Proof.
  unfold run. rewrite upload_directory_unfold by assumption.
  destruct (walk_error w root); [reflexivity|].
  destruct (is_dir (fs w) root) eqn:Hdir; cbn [negb].
  - fold todo. destruct todo as [|t l] eqn:Htodo.
    + rewrite andb_false_r, (pool_sound_nil w pool). reflexivity.
    + cbn [is_nil negb]. rewrite andb_true_r.
      destruct (max_workers <=? 0)%Z; [reflexivity|].
      unfold log, emit. cbn [bind].
      pose proof (drain_result w bucket_name public
                    (as_completed w (t :: l)) no_results) as Hd.
      destruct (drain w bucket_name public (as_completed w (t :: l))
                  no_results) as [r tr].
      cbn [fst] in Hd. subst r. reflexivity.
  - unfold todo, tasks. rewrite (files_below_not_dir w root Hdir).
    cbn [map is_nil negb]. rewrite andb_false_r, (pool_sound_nil w pool).
    reflexivity.
Qed.

Lemma upload_directory_calls :
  store_calls (snd run) =
  match walk_error w root with
  | Some _ => []
  | None =>
      if (max_workers <=? 0)%Z then []
      else flat_map (task_calls w bucket_name public) (as_completed w todo)
  end.
Proof.
  unfold run. rewrite upload_directory_unfold by assumption.
  destruct (walk_error w root); [reflexivity|].
  destruct (is_dir (fs w) root) eqn:Hdir; cbn [negb].
  - fold todo. destruct todo as [|t l] eqn:Htodo.
    + rewrite (pool_sound_nil w pool). now destruct (max_workers <=? 0)%Z.
    + destruct (max_workers <=? 0)%Z; [reflexivity|].
      unfold log, emit. cbn [bind].
      pose proof (drain_result w bucket_name public
                    (as_completed w (t :: l)) no_results) as Hd.
      pose proof (drain_calls w bucket_name public
                    (as_completed w (t :: l)) no_results) as Hc.
      destruct (drain w bucket_name public (as_completed w (t :: l))
                  no_results) as [r tr].
      cbn [fst snd] in Hd, Hc. subst r. unfold ret, bind. cbn [snd app].
      unfold store_calls in *. cbn [filter is_store_call].
      rewrite filter_app, Hc. cbn [filter is_store_call].
      now rewrite app_nil_r.
  - unfold todo, tasks. rewrite (files_below_not_dir w root Hdir).
    cbn [map]. rewrite (pool_sound_nil w pool).
    now destruct (max_workers <=? 0)%Z.
Qed.
End BatchOutcome.

(** ** Keys *)

Lemma replace_backslash_app s1 s2 :
  replace_backslash (s1 ++ s2) =
  (replace_backslash s1 ++ replace_backslash s2)%string.
Proof.
  induction s1 as [|c s1 IH]; simpl; [reflexivity|]. now rewrite IH.
Qed.

Lemma replace_backslash_concat fl l :
  replace_backslash (String.concat (sep fl) l) =
  String.concat "/" (map replace_backslash l).
Proof.
  induction l as [|x l IH]; [reflexivity|].
  destruct l as [|y l]; [reflexivity|].
  change (String.concat (sep fl) (x :: y :: l))
    with (x ++ sep fl ++ String.concat (sep fl) (y :: l))%string.
  rewrite !replace_backslash_app, IH. now destruct fl.
Qed.

Lemma replace_backslash_id s :
  no_backslash s = true -> replace_backslash s = s.
Proof.
  induction s as [|c s IH]; simpl; [reflexivity|].
  intros H. apply andb_prop in H as [Hc Hs].
  apply negb_true_iff in Hc. now rewrite Hc, IH.
Qed.

Lemma map_replace_backslash_id l :
  forallb no_backslash l = true -> map replace_backslash l = l.
Proof.
  induction l as [|x l IH]; simpl; [reflexivity|].
  intros H. apply andb_prop in H as [Hx Hl].
  now rewrite (replace_backslash_id x Hx), IH.
Qed.

Lemma replace_backslash_str_path fl rel :
  replace_backslash (str_path fl rel) =
  str_path Posix (map replace_backslash rel).
Proof.
  destruct rel as [|c rel]; [reflexivity|].
  unfold str_path. cbn [map]. apply (replace_backslash_concat fl (c :: rel)).
Qed.

(** The key of line 149, whatever the relative path. *)
Lemma blob_name_of_str_path fl prefix rel :
  blob_name_of fl prefix rel =
  (replace_backslash prefix
   ++ str_path Posix (map replace_backslash rel))%string.
Proof.
  unfold blob_name_of. destruct prefix as [|c prefix]; cbn [is_empty negb].
  - apply replace_backslash_str_path.
  - now rewrite replace_backslash_app, replace_backslash_str_path.
Qed.

Lemma blob_name_of_eq fl prefix rel :
  rel <> [] ->
  blob_name_of fl prefix rel =
  (replace_backslash prefix
   ++ String.concat "/" (map replace_backslash rel))%string.
Proof.
  intros Hrel. rewrite blob_name_of_str_path.
  destruct rel; [congruence|reflexivity].
Qed.

Lemma upload_file_blob_name w p b blob_name public :
  upload_file w p b blob_name public =
  upload_file w p b (Some (blob_name_or_default blob_name p)) public.
Proof.
  destruct blob_name; reflexivity.
Qed.

Lemma name_app_last parent c : name (parent ++ [c]) = c.
Proof.
  unfold name. apply last_last.
Qed.

(** ** The commands *)

Lemma echo_errors_run l :
  exists tr, echo_errors l = (Ret tt, tr) /\ store_calls tr = [].
Proof.
  induction l as [|x l (tr & Hrun & Hcalls)]; simpl.
  - exists []. split; reflexivity.
  - rewrite Hrun. unfold echo, emit. cbn [bind app]. eexists. split; [reflexivity|].
    exact Hcalls.
Qed.

Lemma In_upload_store_calls b k p tr :
  In (EvUploadFromFilename b k p) tr <->
  In (EvUploadFromFilename b k p) (store_calls tr).
Proof.
  unfold store_calls. rewrite filter_In. simpl. tauto.
Qed.

Lemma task_succeeds_present w b public t :
  task_succeeds w b public t = true -> path_exists w (fst t) = Present.
Proof.
  unfold task_succeeds. now destruct (path_exists w (fst t)).
Qed.

Lemma task_calls_upload w b public t :
  path_exists w (fst t) = Present ->
  In (EvUploadFromFilename b (snd t) (fst t)) (task_calls w b public t).
Proof.
  unfold task_calls. intros ->. now left.
Qed.

Lemma filter_length_0 {A} (f : A -> bool) (l : list A) :
  List.length (filter f l) = 0 <-> forall x, In x l -> f x = false.
Proof.
  induction l as [|x l IH]; simpl.
  - split; [intros _ ? []|reflexivity].
  - destruct (f x) eqn:Hx; simpl.
    + split; [discriminate|]. intros H. specialize (H x (or_introl eq_refl)).
      congruence.
    + rewrite IH. split.
      * intros H y [<-|Hy]; auto.
      * intros H y Hy. apply H. now right.
Qed.

(** The exit status and the store calls of [upload] once the bucket has
    been found. *)
Lemma upload_accessible w p b blob_name public :
  client_new w = None ->
  reload w b = None ->
  exit_status (upload w p b blob_name public) =
    match fst (upload_file w p b blob_name public) with
    | Ret true => 0%Z
    | _ => 1%Z
    end /\
  store_calls (snd (upload w p b blob_name public)) =
    EvReload b :: store_calls (snd (upload_file w p b blob_name public)).
Proof.
  intros Hc Hr.
  pose proof (upload_file_result w p b (blob_name_or_default blob_name p) public)
    as Hres.
  unfold upload, GCSUploader_init, bucket_exists, call_store.
  rewrite Hc, Hr, (upload_file_blob_name w p b blob_name public).
  destruct (upload_file w p b (Some (blob_name_or_default blob_name p)) public)
    as [r tr].
  cbn [fst] in Hres. subst r.
  unfold store_calls.
  destruct (path_exists w p);
    try destruct (task_succeeds w b public (p, blob_name_or_default blob_name p));
    cbn; rewrite ?filter_app; cbn; rewrite ?app_nil_r; split; reflexivity.
Qed.

Lemma upload_inaccessible w p b blob_name public :
  client_new w <> None \/ reload w b <> None ->
  exit_status (upload w p b blob_name public) = 1%Z.
Proof.
  intros H. unfold upload, GCSUploader_init, bucket_exists, call_store.
  destruct (client_new w) as [[msg|msg]|];
    destruct (reload w b) as [[m|m|m]|]; try reflexivity.
  destruct H; congruence.
Qed.

Lemma upload_dir_inaccessible w dir b prefix public max_workers :
  client_new w <> None \/ reload w b <> None ->
  exit_status (upload_dir w dir b prefix public max_workers) = 1%Z.
Proof.
  intros H. unfold upload_dir, GCSUploader_init, bucket_exists, call_store.
  destruct (client_new w) as [[msg|msg]|];
    destruct (reload w b) as [[m|m|m]|]; try reflexivity.
  destruct H; congruence.
Qed.

(** The exit status and the store calls of [upload_dir] once the bucket
    has been found. *)
Lemma upload_dir_accessible w dir b prefix public max_workers :
  client_new w = None ->
  reload w b = None ->
  exit_status (upload_dir w dir b prefix public max_workers) =
    match fst (upload_directory w dir b prefix public max_workers) with
    | Ret res => if Nat.ltb 0 (failed res) then 1%Z else 0%Z
    | Raise (SystemExit code) => code
    | Raise _ => 1%Z
    end /\
  store_calls (snd (upload_dir w dir b prefix public max_workers)) =
    EvReload b ::
    store_calls (snd (upload_directory w dir b prefix public max_workers)).
Proof.
  intros Hc Hr.
  unfold upload_dir, GCSUploader_init, bucket_exists, call_store.
  rewrite Hc, Hr.
  destruct (upload_directory w dir b prefix public max_workers) as [r tr].
  unfold store_calls. destruct r as [res|e].
  - destruct res as [ok ko errs].
    destruct (echo_errors_run errs) as (te & Hrun & Hcalls).
    unfold store_calls in Hcalls.
    cbv beta iota zeta
      delta [bind log echo emit ret try_except errors failed success negb].
    destruct errs as [|x errs]; destruct ko as [|ko]; rewrite ?Hrun; cbn;
      rewrite ?filter_app; cbn; rewrite ?filter_app, ?Hcalls; cbn;
      rewrite ?app_nil_r; split; reflexivity.
  - destruct e; cbn; rewrite ?filter_app; cbn; rewrite ?app_nil_r;
      split; reflexivity.
Qed.

Lemma upload_exit w p b blob_name public :
  (exit_status (upload w p b blob_name public) = 0%Z \/
   exit_status (upload w p b blob_name public) = 1%Z) /\
  (exit_status (upload w p b blob_name public) = 0%Z <->
   bucket_accessible w b /\
   uploaded w (snd (upload w p b blob_name public)) b public
     (p, blob_name_or_default blob_name p)).
Proof.
  unfold bucket_accessible, uploaded. cbn [fst snd].
  destruct (client_new w) as [ie|] eqn:Hc.
  { rewrite upload_inaccessible by (left; congruence).
    split; [now right|]. split; [discriminate|]. intros [[? _] _]. discriminate. }
  destruct (reload w b) as [se|] eqn:Hr.
  { rewrite upload_inaccessible by (right; congruence).
    split; [now right|]. split; [discriminate|]. intros [[_ ?] _]. discriminate. }
  destruct (upload_accessible w p b blob_name public Hc Hr) as [Hexit Hcalls].
  rewrite Hexit, In_upload_store_calls, Hcalls.
  rewrite upload_file_blob_name, upload_file_result, upload_file_calls.
  pose proof (task_succeeds_present w b public
                (p, blob_name_or_default blob_name p)) as Hpresent.
  pose proof (task_calls_upload w b public
                (p, blob_name_or_default blob_name p)) as Hcall.
  cbn [fst snd] in Hpresent, Hcall.
  destruct (path_exists w p) eqn:Hp.
  - destruct (task_succeeds w b public (p, blob_name_or_default blob_name p)).
    + split; [now left|]. split; [|reflexivity]. intros _.
      repeat split. right. now apply Hcall.
    + split; [now right|]. split; [discriminate|]. intros [_ [_ ?]]. discriminate.
  - destruct (task_succeeds w b public (p, blob_name_or_default blob_name p)).
    + discriminate (Hpresent eq_refl).
    + split; [now right|]. split; [discriminate|]. intros [_ [_ ?]]. discriminate.
  - split; [now right|]. split; [discriminate|]. intros [_ [_ Hts]].
    discriminate (Hpresent Hts).
Qed.

Lemma upload_dir_exit w dir b prefix public max_workers :
  wf_node (fs w) = true ->
  pool_sound w ->
  (exit_status (upload_dir w dir b prefix public max_workers) = 0%Z \/
   exit_status (upload_dir w dir b prefix public max_workers) = 1%Z) /\
  (exit_status (upload_dir w dir b prefix public max_workers) = 0%Z <->
   bucket_accessible w b /\
   walk_error w dir = None /\
   forall t,
     In t (tasks w dir prefix) ->
     uploaded w (snd (upload_dir w dir b prefix public max_workers)) b public t).
Proof.
  intros Hwf Hpool. unfold bucket_accessible, uploaded.
  destruct (client_new w) as [ie|] eqn:Hc.
  { rewrite upload_dir_inaccessible by (left; congruence).
    split; [now right|]. split; [discriminate|]. intros [[? _] _]. discriminate. }
  destruct (reload w b) as [se|] eqn:Hr.
  { rewrite upload_dir_inaccessible by (right; congruence).
    split; [now right|]. split; [discriminate|]. intros [[_ ?] _]. discriminate. }
  destruct (upload_dir_accessible w dir b prefix public max_workers Hc Hr)
    as [Hexit Hcalls].
  rewrite Hexit.
  rewrite (upload_directory_result w dir b prefix public max_workers Hwf Hpool).
  rewrite (upload_directory_calls w dir b prefix public max_workers Hwf Hpool)
    in Hcalls.
  pose proof (Hpool (tasks w dir prefix)) as Hperm.
  destruct (walk_error w dir) as [msg|].
  { split; [now right|]. split; [discriminate|]. intros (_ & H & _).
    discriminate H. }
  destruct (max_workers <=? 0)%Z.
  - destruct (tasks w dir prefix) as [|t l] eqn:Htodo.
    + cbn [is_nil negb andb]. rewrite (pool_sound_nil w Hpool).
      cbn. split; [now left|]. split; [|reflexivity]. intros _.
      split; [tauto|]. split; [reflexivity|]. intros ? [].
    + cbn [is_nil negb andb]. split; [now right|]. split; [discriminate|].
      intros (_ & _ & H). destruct (H t (or_introl eq_refl)) as [Hin _].
      apply In_upload_store_calls in Hin. rewrite Hcalls in Hin.
      destruct Hin as [Hin|[]]. discriminate Hin.
  - cbn [andb].
    destruct (fold_record w b public (as_completed w (tasks w dir prefix))
                no_results) as (_ & Hf & _).
    cbv zeta in Hf. cbn [failed no_results Nat.add] in Hf. rewrite Hf.
    rewrite <- (Permutation_filter_length _ _ _ Hperm).
    destruct (List.length
                (filter (fun t => negb (task_succeeds w b public t))
                   (tasks w dir prefix))) as [|n] eqn:Hlen.
    + cbn. split; [now left|]. split; [|reflexivity]. intros _.
      split; [tauto|]. split; [reflexivity|]. intros t Ht.
      apply filter_length_0 with (x := t) in Hlen; [|exact Ht].
      apply negb_false_iff in Hlen. split; [|exact Hlen].
      apply In_upload_store_calls. rewrite Hcalls. right.
      apply in_flat_map. exists t. split.
      * eapply Permutation_in; eassumption.
      * apply task_calls_upload. now apply task_succeeds_present in Hlen.
    + cbn. split; [now right|]. split; [discriminate|]. intros (_ & _ & H).
      assert (Hzero : List.length
                        (filter (fun t => negb (task_succeeds w b public t))
                           (tasks w dir prefix)) = 0).
      { apply filter_length_0. intros t Ht. apply negb_false_iff.
        now destruct (H t Ht). }
      congruence.
Qed.

(** The exit status of a command as [click] runs it. *)
Lemma click_invoke_exit refusal body :
  exit_status (click_invoke refusal body) =
  match refusal with
  | None => exit_status body
  | Some _ => 2%Z
  end.
Proof. now destruct refusal. Qed.

Lemma click_invoke_trace body :
  snd (click_invoke None body) = snd body.
Proof. reflexivity. Qed.

(** ** Sample runs *)

Example rglob_site :
  rglob_from calm ["site"] =
  [["site"; "index.html"]; ["site"; "img"]; ["site"; ".hidden"];
   ["site"; "empty"]; ["site"; "cache"];
   ["site"; "img"; "a.png"]; ["site"; "img"; "sock"];
   ["site"; "cache"; "tmp"]; ["site"; "cache"; "lock"]].
Proof. reflexivity. Qed.

Example files_below_site :
  files_below calm ["site"] = [["index.html"]; [".hidden"]; ["img"; "a.png"]].
Proof. reflexivity. Qed.

Example upload_directory_rough :
  fst (upload_directory rough ["site"] "bk" "data/" true 4) =
  Ret {| success := 0;
         failed := 3;
         errors := ["Failed to upload: site\img\a.png";
                    "Error uploading site\.hidden: Permission denied";
                    "Failed to upload: site\index.html"] |}.
Proof. reflexivity. Qed.

Example upload_directory_rough_calls :
  store_calls (snd (upload_directory rough ["site"] "bk" "data/" true 4)) =
  [EvUploadFromFilename "bk" "data/img/a.png" ["site"; "img"; "a.png"];
   EvMakePublic "bk" "data/img/a.png";
   EvUploadFromFilename "bk" "data/index.html" ["site"; "index.html"]].
Proof. reflexivity. Qed.

Example upload_directory_no_worker :
  upload_directory calm ["site"] "bk" "" false 0 =
  (Raise (ValueError "max_workers must be greater than 0"),
   [EvLog INFO "Found 3 files to upload"]).
Proof. reflexivity. Qed.

Example upload_notes :
  upload calm ["notes.txt"] "bk" None true =
  (Ret tt,
   [EvLog INFO "Initialized GCS client for project: demo";
    EvReload "bk";
    EvLog INFO "Uploading notes.txt to gs://bk/notes.txt";
    EvUploadFromFilename "bk" "notes.txt" ["notes.txt"];
    EvMakePublic "bk" "notes.txt";
    EvLog INFO "Made blob public: gs://bk/notes.txt";
    EvLog INFO "Successfully uploaded: gs://bk/notes.txt";
    EvEcho false "Successfully uploaded: notes.txt"]).
Proof. reflexivity. Qed.

Example upload_dir_rough_exit :
  exit_status (upload_dir rough ["site"] "bk" "data/" false 2) = 1%Z /\
  exit_status (upload_dir calm ["site"] "bk" "data/" true 2) = 0%Z /\
  exit_status (upload_dir calm ["site"] "bk" "data/" true 0) = 1%Z /\
  exit_status (upload_dir calm ["site"; "empty"] "bk" "data/" true 0) = 0%Z.
Proof. repeat split. Qed.

Example upload_directory_guarded :
  upload_directory guarded ["vault"] "bk" "" false 4 =
    (Raise (OSError "Permission denied"), []) /\
  upload_directory guarded ["mixed"; "b"] "bk" "" false 4 =
    (Raise (OSError "Permission denied"), []) /\
  upload_directory calm [] "bk" "" false 0 =
    (Raise (ValueError "max_workers must be greater than 0"),
     [EvLog INFO "Found 4 files to upload"]) /\
  upload_directory calm ["notes.txt"] "bk" "" false 0 =
    (Ret no_results, [EvLog ERROR "Directory not found: notes.txt"]).
Proof. repeat split. Qed.

(** * The claims *)

Lemma pool_sound_rough : pool_sound rough.
Proof.
  intros l. apply Permutation_rev.
Defined.

Lemma pool_sound_calm : pool_sound calm.
Proof.
  intros l. apply Permutation_refl.
Defined.


(** C1. After [upload_directory] returns, the success count plus the
    failure count is the number of regular files below the root, and
    [errors] holds one entry per failed task: the failure messages of the
    tasks in completion order. With at least one worker, and when the walk
    meets no entry it cannot examine, it does return. *)
Theorem upload_directory_counts (w : World) (root : path)
    (bucket_name prefix : string) (public : bool) (max_workers : Z) :
  wf_node (fs w) = true ->
  pool_sound w ->
  (forall res,
     fst (upload_directory w root bucket_name prefix public max_workers)
       = Ret res ->
     success res + failed res = List.length (files_below w root) /\
     List.length (errors res) = failed res /\
     errors res =
       failures w bucket_name public (as_completed w (tasks w root prefix))) /\
  ((0 < max_workers)%Z ->
   walk_error w root = None ->
   exists res,
     fst (upload_directory w root bucket_name prefix public max_workers)
       = Ret res).
Proof.
  intros Hwf Hpool.
  rewrite (upload_directory_result w root bucket_name prefix public
             max_workers Hwf Hpool).
  split.
  - intros res Hres. destruct (walk_error w root); [discriminate|].
    destruct ((max_workers <=? 0)%Z && negb (is_nil (tasks w root prefix)));
      [discriminate|].
    injection Hres as <-.
    destruct (fold_record w bucket_name public
                (as_completed w (tasks w root prefix)) no_results)
      as (Hs & Hf & He).
    cbv zeta in Hs, Hf, He. rewrite Hs, Hf, He.
    cbn [success failed errors no_results app Nat.add].
    rewrite length_failures. repeat split.
    rewrite filter_split_length.
    rewrite <- (Permutation_length (Hpool (tasks w root prefix))).
    unfold tasks. apply length_map.
  - intros Hpos Hwalk. rewrite Hwalk. apply Z.leb_gt in Hpos. rewrite Hpos.
    cbn [andb]. eauto.
Qed.

Lemma upload_directory_counts_witness :
  wf_node (fs rough) = true /\
  pool_sound rough /\
  (0 < 4)%Z /\
  walk_error rough ["site"] = None /\
  exists res,
    fst (upload_directory rough ["site"] "bk" "data/" true 4) = Ret res /\
    success res + failed res = List.length (files_below rough ["site"]) /\
    List.length (errors res) = failed res.
Proof.
  split; [reflexivity|]. split; [exact pool_sound_rough|].
  split; [reflexivity|]. split; [reflexivity|].
  destruct (upload_directory_counts rough ["site"] "bk" "data/" true 4
              eq_refl pool_sound_rough) as [Hcount Hreturns].
  destruct (Hreturns eq_refl eq_refl) as [res Hres].
  exists res. split; [exact Hres|].
  destruct (Hcount res Hres) as (Hsum & Hlen & _). split; assumption.
Defined.

(** C2, as the code has it. A root that does not exist or is no
    directory, and that can be examined, makes [upload_directory] log an
    error and return the empty result [{success: 0, failed: 0, errors:
    []}]; no [NotFoundError] is raised. *)
Theorem missing_root_returns_no_results (w : World) (root : path)
    (bucket_name prefix : string) (public : bool) (max_workers : Z) :
  exists_ (fs w) root = false \/ is_dir (fs w) root = false ->
  (forall msg, stat (fs w) root <> StatError msg) ->
  upload_directory w root bucket_name prefix public max_workers =
  (Ret no_results,
   [EvLog ERROR ("Directory not found: " ++ str_path (os_flavour w) root)]).
Proof.
  intros H Hstat. unfold upload_directory, Path_exists, Path_is_dir.
  pose proof (stat_cases (fs w) root) as Hc.
  destruct (stat (fs w) root) as [[| |es|m]| |msg]; try reflexivity.
  - destruct Hc as [Hc _]. unfold exists_, is_dir in H. rewrite Hc in H.
    destruct H; discriminate.
  - now destruct (Hstat msg).
Qed.

Lemma missing_root_returns_no_results_witness :
  (exists_ (fs calm) ["nope"] = false \/ is_dir (fs calm) ["nope"] = false) /\
  (forall msg, stat (fs calm) ["nope"] <> StatError msg) /\
  upload_directory calm ["nope"] "bk" "" false 4 =
  (Ret no_results, [EvLog ERROR "Directory not found: nope"]).
Proof.
  assert (Hstat : forall msg, stat (fs calm) ["nope"] <> StatError msg)
    by (intros msg; discriminate).
  split; [left; reflexivity|]. split; [exact Hstat|].
  apply (missing_root_returns_no_results calm ["nope"] "bk" "" false 4);
    [left; reflexivity|exact Hstat].
Defined.

(** C2 as stated fails: for a root that does not exist, and for a root
    that is a regular file, [upload_directory] returns normally. *)
Lemma missing_root_does_not_raise :
  exists_ (fs calm) ["nope"] = false /\
  is_dir (fs calm) ["notes.txt"] = false /\
  (forall e, fst (upload_directory calm ["nope"] "bk" "" false 4) <> Raise e) /\
  (forall e,
     fst (upload_directory calm ["notes.txt"] "bk" "" false 4) <> Raise e).
Proof.
  repeat split; intros e; discriminate.
Qed.

(** C4, as the code has it. For a directory that exists and holds no
    regular file, and below which the walk meets no entry it cannot
    examine, [upload_directory] returns the empty result after one
    warning, whatever the worker count. *)
Theorem empty_directory_no_results (w : World) (root : path)
    (bucket_name prefix : string) (public : bool) (max_workers : Z) :
  wf_node (fs w) = true ->
  is_dir (fs w) root = true ->
  files_below w root = [] ->
  walk_error w root = None ->
  upload_directory w root bucket_name prefix public max_workers =
  (Ret no_results,
   [EvLog WARNING
      ("No files found in directory: " ++ str_path (os_flavour w) root)]).
Proof.
  intros Hwf Hdir Hnone Hwalk.
  rewrite upload_directory_unfold by assumption.
  rewrite Hwalk, Hdir. unfold tasks. rewrite Hnone. reflexivity.
Qed.

Lemma empty_directory_no_results_witness :
  wf_node (fs calm) = true /\
  is_dir (fs calm) ["site"; "cache"] = true /\
  files_below calm ["site"; "cache"] = [] /\
  walk_error calm ["site"; "cache"] = None /\
  upload_directory calm ["site"; "cache"] "bk" "data/" true 0 =
  (Ret no_results,
   [EvLog WARNING "No files found in directory: site/cache"]).
Proof.
  repeat (split; [reflexivity|]).
  apply (empty_directory_no_results calm ["site"; "cache"] "bk" "data/" true 0);
    reflexivity.
Defined.

(** C4 as stated fails: a directory that exists and holds no regular
    file, but a sub-directory whose entry cannot be examined, makes
    [upload_directory] fail with the [OSError] of [is_file]. *)
Lemma empty_directory_can_fail :
  wf_node (fs guarded) = true /\
  is_dir (fs guarded) ["vault"] = true /\
  files_below guarded ["vault"] = [] /\
  upload_directory guarded ["vault"] "bk" "" false 4 =
  (Raise (OSError "Permission denied"), []).
Proof.
  repeat split.
Qed.

Lemma rglob_not_nil n rel : In rel (rglob n) -> rel <> [].
Proof.
  destruct n as [| |es|msg]; try contradiction.
  rewrite rglob_Dir. unfold rglob_entries. intros H.
  apply in_app_or in H as [H|H].
  - apply in_map_iff in H as (e & <- & _). discriminate.
  - apply in_flat_map in H as (e & _ & H).
    apply in_map_iff in H as (r & <- & _). discriminate.
Qed.

(** What the loop of lines 146-150 holds when it ends: what it held
    before, and tasks of entries it has met. *)
Lemma collect_members w root prefix l : forall found files,
  fst (collect w root prefix (map (app root) l) found) = Ret files ->
  forall t,
    In t files ->
    In t found \/ exists rel, In rel l /\ t = task_of w root prefix rel.
Proof.
  induction l as [|rel l IH]; intros found files Hrun t Ht.
  - cbn in Hrun. injection Hrun as <-. now left.
  - cbn [map collect] in Hrun. unfold Path_is_file in Hrun.
    destruct (stat (fs w) (root ++ rel)) as [[| |es|m]| |msg];
      try (rewrite bind_ret_l in Hrun;
           destruct (IH _ _ Hrun t Ht) as [H|(r & Hr & ->)];
           [now left|right; exists r; split; [now right|reflexivity]]);
      try discriminate Hrun.
    rewrite bind_ret_l, relative_to_app in Hrun.
    destruct (IH _ _ Hrun t Ht) as [H|(r & Hr & ->)].
    + apply in_app_or in H as [H|[<-|[]]]; [now left|].
      right. exists rel. split; [now left|reflexivity].
    + right. exists r. split; [now right|reflexivity].
Qed.

(** C3, as the code has it. The key of an enumerated file is the prefix
    followed by the components of the relative path with [/] between
    them, every backslash of the prefix and of the components replaced by
    [/]; the walk yields such tasks whenever it meets no entry it cannot
    examine. With an empty prefix the key is the relative path so
    normalised; where neither the prefix nor a file name holds a
    backslash it is the prefix followed by the relative path; ["data/"]
    and [a/b/c.txt] give ["data/a/b/c.txt"] under both path flavours. *)
Theorem destination_keys (w : World) (root : path) (prefix : string) :
  (forall files,
     fst (collect w root prefix (rglob_from w root) []) = Ret files ->
     forall p k,
       In (p, k) files ->
       exists rel,
         rel <> [] /\ p = root ++ rel /\
         k = (replace_backslash prefix
              ++ String.concat "/" (map replace_backslash rel))%string) /\
  (walk_error w root = None ->
   exists files,
     fst (collect w root prefix (rglob_from w root) []) = Ret files) /\
  (forall fl rel,
     rel <> [] ->
     blob_name_of fl "" rel = String.concat "/" (map replace_backslash rel)) /\
  (forall fl rel,
     rel <> [] ->
     no_backslash prefix = true -> forallb no_backslash rel = true ->
     blob_name_of fl prefix rel = key_mapper_spec prefix rel) /\
  (forall fl, blob_name_of fl "data/" ["a"; "b"; "c.txt"] = "data/a/b/c.txt").
Proof.
  split; [|split; [|split; [|split]]].
  - intros files Hrun p k Hin. unfold rglob_from in Hrun.
    destruct (resolve (fs w) root) as [n|].
    + destruct (collect_members w root prefix (rglob n) [] files Hrun _ Hin)
        as [[]|(rel & Hrel & E)].
      unfold task_of in E. injection E as -> ->.
      pose proof (rglob_not_nil n rel Hrel) as Hne.
      exists rel. repeat split; [exact Hne|]. now apply blob_name_of_eq.
    + cbn in Hrun. injection Hrun as <-. contradiction.
  - intros Hwalk. unfold walk_error in Hwalk. unfold rglob_from.
    pose proof (stat_cases (fs w) root) as Hc.
    destruct (stat (fs w) root) as [n| |msg] eqn:Hstat.
    + destruct Hc as [Hc _]. rewrite Hc.
      rewrite (collect_map w root n prefix (rglob n) [] Hstat).
      destruct n as [| |es|m]; try (eexists; reflexivity).
      rewrite Hwalk. eexists; reflexivity.
    + rewrite Hc. eexists; reflexivity.
    + discriminate Hwalk.
  - intros fl rel Hrel. now rewrite blob_name_of_eq.
  - intros fl rel Hrel Hp Hn. unfold key_mapper_spec.
    now rewrite blob_name_of_eq, (replace_backslash_id _ Hp),
      (map_replace_backslash_id _ Hn).
  - intros []; reflexivity.
Qed.

Lemma destination_keys_witness :
  walk_error rough ["site"] = None /\
  fst (collect rough ["site"] "data\" (rglob_from rough ["site"]) []) =
    Ret [(["site"; "index.html"], "data/index.html");
         (["site"; ".hidden"], "data/.hidden");
         (["site"; "img"; "a.png"], "data/img/a.png")] /\
  exists rel,
    rel <> [] /\ ["site"; "img"; "a.png"] = ["site"] ++ rel /\
    "data/img/a.png" =
    (replace_backslash "data\"
     ++ String.concat "/" (map replace_backslash rel))%string.
Proof.
  split; [reflexivity|]. split; [reflexivity|].
  apply (proj1 (destination_keys rough ["site"] "data\") _ eq_refl).
  right; right; left; reflexivity.
Defined.

(** C3 as stated fails where a backslash is no separator of the relative
    path: in the prefix, and in a file name of a POSIX tree. *)
Lemma destination_key_differs :
  blob_name_of Windows "in\" ["a"; "b.txt"] = "in/a/b.txt" /\
  blob_name_of Windows "in\" ["a"; "b.txt"]
    <> key_mapper_spec "in\" ["a"; "b.txt"] /\
  blob_name_of Posix "data/" ["a\b.txt"] = "data/a/b.txt" /\
  blob_name_of Posix "data/" ["a\b.txt"]
    <> key_mapper_spec "data/" ["a\b.txt"].
Proof.
  repeat split; discriminate.
Qed.

(** C6. A single-file upload of a file that is there, with [make_public]
    requested: once the store has accepted the write, the visibility
    change is the next store call, and the upload is reported as a
    success exactly when that call succeeds; when it fails the upload is
    reported as a failure. *)
Theorem make_public_failure_fails_upload (w : World) (p : path)
    (b : string) (blob_name : option string) :
  path_exists w p = Present ->
  upload_from_filename w b (blob_name_or_default blob_name p) p = None ->
  store_calls (snd (upload_file w p b blob_name true)) =
    [EvUploadFromFilename b (blob_name_or_default blob_name p) p;
     EvMakePublic b (blob_name_or_default blob_name p)] /\
  (make_public w b (blob_name_or_default blob_name p) <> None ->
   fst (upload_file w p b blob_name true) = Ret false) /\
  (make_public w b (blob_name_or_default blob_name p) = None ->
   fst (upload_file w p b blob_name true) = Ret true).
Proof.
  intros Hp Hput. rewrite upload_file_blob_name.
  rewrite upload_file_calls, upload_file_result.
  unfold task_calls, task_succeeds. cbn [fst snd]. rewrite Hp, Hput.
  split; [reflexivity|].
  destruct (make_public w b (blob_name_or_default blob_name p));
    split; congruence.
Qed.

Lemma make_public_failure_fails_upload_witness :
  path_exists rough ["site"; "img"; "a.png"] = Present /\
  upload_from_filename rough "bk" "data/img/a.png" ["site"; "img"; "a.png"]
    = None /\
  store_calls
    (snd (upload_file rough ["site"; "img"; "a.png"] "bk"
            (Some "data/img/a.png") true)) =
    [EvUploadFromFilename "bk" "data/img/a.png" ["site"; "img"; "a.png"];
     EvMakePublic "bk" "data/img/a.png"] /\
  fst (upload_file rough ["site"; "img"; "a.png"] "bk"
         (Some "data/img/a.png") true) = Ret false.
Proof.
  split; [reflexivity|]. split; [reflexivity|].
  destruct (make_public_failure_fails_upload rough ["site"; "img"; "a.png"]
              "bk" (Some "data/img/a.png") eq_refl eq_refl) as (Hc & Hf & _).
  split; [exact Hc|]. apply Hf. discriminate.
Defined.

(** C10. When [blob_name] is [None], [upload_file] uses the final
    component of the local path as the key: it behaves as with that key
    given, and its store calls name it. *)
Theorem default_blob_name_is_basename (w : World) (b : string) (public : bool) :
  (forall p,
     upload_file w p b None public = upload_file w p b (Some (name p)) public) /\
  (forall parent c,
     store_calls (snd (upload_file w (parent ++ [c]) b None public)) =
     task_calls w b public (parent ++ [c], c)).
Proof.
  split.
  - intros p. apply upload_file_blob_name.
  - intros parent c. rewrite upload_file_blob_name. cbn [blob_name_or_default].
    now rewrite name_app_last, upload_file_calls.
Qed.

(** C5. Whatever the store answers, settling a task yields that task's
    outcome and raises nothing; with at least one worker, and when the
    walk meets no entry it cannot examine, the batch returns, its success
    count is the number of tasks that succeed on their own, its failure
    count the number of the others, and the store calls of every task of
    the batch were made. *)
Theorem task_failures_stay_in_task (w : World) (root : path)
    (bucket_name prefix : string) (public : bool) (max_workers : Z) :
  wf_node (fs w) = true ->
  pool_sound w ->
  (0 < max_workers)%Z ->
  (forall res0 t,
     fst (settle w bucket_name public res0 t) =
     Ret (record res0 (failure_of w bucket_name public t))) /\
  (walk_error w root = None ->
   exists res,
     fst (upload_directory w root bucket_name prefix public max_workers)
       = Ret res /\
     success res =
       List.length (filter (task_succeeds w bucket_name public)
                      (tasks w root prefix)) /\
     failed res =
       List.length (filter (fun t => negb (task_succeeds w bucket_name public t))
                      (tasks w root prefix)) /\
     forall t ev,
       In t (tasks w root prefix) ->
       In ev (task_calls w bucket_name public t) ->
       In ev (snd (upload_directory w root bucket_name prefix public
                     max_workers))).
Proof.
  intros Hwf Hpool Hpos. split; [intros; apply settle_result|].
  intros Hwalk.
  pose proof (upload_directory_result w root bucket_name prefix public
                max_workers Hwf Hpool) as Hres.
  pose proof (upload_directory_calls w root bucket_name prefix public
                max_workers Hwf Hpool) as Hcalls.
  apply Z.leb_gt in Hpos. rewrite Hwalk, Hpos in Hres, Hcalls.
  cbn [andb] in Hres.
  eexists. split; [exact Hres|].
  destruct (fold_record w bucket_name public
              (as_completed w (tasks w root prefix)) no_results)
    as (Hs & Hf & _).
  cbv zeta in Hs, Hf. cbn [success failed no_results Nat.add] in Hs, Hf.
  pose proof (Hpool (tasks w root prefix)) as Hperm.
  split; [|split].
  - rewrite Hs. symmetry. now apply Permutation_filter_length.
  - rewrite Hf. symmetry. now apply Permutation_filter_length.
  - intros t ev Ht Hev.
    assert (Hin : In ev (store_calls
                           (snd (upload_directory w root bucket_name prefix
                                   public max_workers)))).
    { rewrite Hcalls. apply in_flat_map. exists t. split; [|exact Hev].
      eapply Permutation_in; eassumption. }
    unfold store_calls in Hin. apply filter_In in Hin. tauto.
Qed.

Lemma task_failures_stay_in_task_witness :
  wf_node (fs rough) = true /\
  pool_sound rough /\
  (0 < 2)%Z /\
  walk_error rough ["site"] = None /\
  exists res,
    fst (upload_directory rough ["site"] "bk" "data/" false 2) = Ret res /\
    success res = 1 /\
    failed res = 2.
Proof.
  split; [reflexivity|]. split; [exact pool_sound_rough|].
  split; [reflexivity|]. split; [reflexivity|].
  destruct (task_failures_stay_in_task rough ["site"] "bk" "data/" false 2
              eq_refl pool_sound_rough eq_refl) as [_ Hbatch].
  destruct (Hbatch eq_refl) as (res & Hres & Hs & Hf & _).
  exists res. split; [exact Hres|]. split; [exact Hs|exact Hf].
Defined.

(** C7. When [bucket_exists] finds the bucket missing or inaccessible,
    [upload_dir] exits with status 1 without dispatching a task: its run
    holds no store write, no visibility change and no progress tick, and
    an error message has been echoed when the client could be built. *)
Theorem missing_bucket_short_circuits (w : World) (directory_path : path)
    (bucket_name prefix : string) (public : bool) (max_workers : Z) :
  reload w bucket_name <> None ->
  exit_status
    (upload_dir w directory_path bucket_name prefix public max_workers) = 1%Z /\
  filter is_task_event
    (snd (upload_dir w directory_path bucket_name prefix public max_workers))
    = [] /\
  (client_new w = None ->
   In (EvEcho true ("Error: Bucket '" ++ bucket_name
                    ++ "' not found or not accessible"))
     (snd (upload_dir w directory_path bucket_name prefix public max_workers))).
Proof.
  intros Hmissing.
  unfold upload_dir, GCSUploader_init, bucket_exists, call_store.
  destruct (client_new w) as [[msg|msg]|];
    destruct (reload w bucket_name) as [[m|m|m]|]; try congruence;
    cbn; repeat split; try discriminate; intros _; auto 6 using in_eq, in_cons.
Qed.

Lemma missing_bucket_short_circuits_witness :
  reload rough "gone" <> None /\
  exit_status (upload_dir rough ["site"] "gone" "data/" true 4) = 1%Z /\
  filter is_task_event (snd (upload_dir rough ["site"] "gone" "data/" true 4))
    = [] /\
  In (EvEcho true "Error: Bucket 'gone' not found or not accessible")
    (snd (upload_dir rough ["site"] "gone" "data/" true 4)).
Proof.
  assert (H : reload rough "gone" <> None) by discriminate.
  split; [exact H|].
  destruct (missing_bucket_short_circuits rough ["site"] "gone" "data/" true 4 H)
    as (Hexit & Hnone & Hecho).
  split; [exact Hexit|]. split; [exact Hnone|]. apply Hecho. reflexivity.
Defined.

(** C8, as the code has it. A command exits with status 2 exactly when
    [click] refuses its command line, and otherwise with 0 or 1. [upload]
    exits with 0 exactly when the command line is accepted, the bucket is
    accessible and the file was uploaded; [upload_dir] exits with 0
    exactly when the command line is accepted, the bucket is accessible,
    the walk of the directory meets no entry it cannot examine and every
    regular file below the directory was uploaded. *)
Theorem exit_status_of_commands (w : World) :
  wf_node (fs w) = true ->
  pool_sound w ->
  (forall refusal p b blob_name public,
     (exit_status (cli_upload refusal w p b blob_name public) = 0%Z \/
      exit_status (cli_upload refusal w p b blob_name public) = 1%Z \/
      exit_status (cli_upload refusal w p b blob_name public) = 2%Z) /\
     (exit_status (cli_upload refusal w p b blob_name public) = 2%Z <->
      refusal <> None) /\
     (exit_status (cli_upload refusal w p b blob_name public) = 0%Z <->
      refusal = None /\
      bucket_accessible w b /\
      uploaded w (snd (cli_upload refusal w p b blob_name public)) b public
        (p, blob_name_or_default blob_name p))) /\
  (forall refusal dir b prefix public max_workers,
     (exit_status (cli_upload_dir refusal w dir b prefix public max_workers)
        = 0%Z \/
      exit_status (cli_upload_dir refusal w dir b prefix public max_workers)
        = 1%Z \/
      exit_status (cli_upload_dir refusal w dir b prefix public max_workers)
        = 2%Z) /\
     (exit_status (cli_upload_dir refusal w dir b prefix public max_workers)
        = 2%Z <-> refusal <> None) /\
     (exit_status (cli_upload_dir refusal w dir b prefix public max_workers)
        = 0%Z <->
      refusal = None /\
      bucket_accessible w b /\
      walk_error w dir = None /\
      forall t,
        In t (tasks w dir prefix) ->
        uploaded w
          (snd (cli_upload_dir refusal w dir b prefix public max_workers))
          b public t)).
Proof.
  intros Hwf Hpool. split.
  - intros refusal p b blob_name public. unfold cli_upload.
    rewrite click_invoke_exit. destruct refusal as [usage|].
    + split; [auto|]. split; [split; congruence|].
      split; [discriminate|]. intros [H _]. discriminate H.
    + rewrite click_invoke_trace.
      destruct (upload_exit w p b blob_name public) as [H01 Hiff].
      split; [tauto|]. split.
      * split; [|congruence]. intros H2. destruct H01; congruence.
      * rewrite Hiff. tauto.
  - intros refusal dir b prefix public max_workers. unfold cli_upload_dir.
    rewrite click_invoke_exit. destruct refusal as [usage|].
    + split; [auto|]. split; [split; congruence|].
      split; [discriminate|]. intros [H _]. discriminate H.
    + rewrite click_invoke_trace.
      destruct (upload_dir_exit w dir b prefix public max_workers Hwf Hpool)
        as [H01 Hiff].
      split; [tauto|]. split.
      * split; [|congruence]. intros H2. destruct H01; congruence.
      * rewrite Hiff. tauto.
Qed.

Lemma exit_status_of_commands_witness :
  wf_node (fs calm) = true /\
  pool_sound calm /\
  (exit_status (cli_upload None calm ["notes.txt"] "bk" None true) = 0%Z <->
   None = @None string /\
   bucket_accessible calm "bk" /\
   uploaded calm (snd (cli_upload None calm ["notes.txt"] "bk" None true))
     "bk" true (["notes.txt"], blob_name_or_default None ["notes.txt"])) /\
  (exit_status (cli_upload_dir None calm ["site"] "bk" "data/" true 4) = 0%Z <->
   None = @None string /\
   bucket_accessible calm "bk" /\
   walk_error calm ["site"] = None /\
   forall t,
     In t (tasks calm ["site"] "data/") ->
     uploaded calm (snd (cli_upload_dir None calm ["site"] "bk" "data/" true 4))
       "bk" true t).
Proof.
  split; [reflexivity|]. split; [exact pool_sound_calm|].
  destruct (exit_status_of_commands calm eq_refl pool_sound_calm) as [Hup Hdir].
  split.
  - exact (proj2 (proj2 (Hup None ["notes.txt"] "bk" None true))).
  - exact (proj2 (proj2 (Hdir None ["site"] "bk" "data/" true 4%Z))).
Defined.

(** C8 as stated fails: with the bucket accessible and no file that
    failed, an entry the walk cannot examine makes [upload_dir] exit with
    status 1. *)
Lemma exit_status_without_failed_file :
  bucket_accessible guarded "bk" /\
  (forall t,
     In t (tasks guarded ["vault"] "") ->
     uploaded guarded
       (snd (cli_upload_dir None guarded ["vault"] "bk" "" false 4))
       "bk" false t) /\
  exit_status (cli_upload_dir None guarded ["vault"] "bk" "" false 4) = 1%Z.
Proof.
  split; [split; reflexivity|]. split; [intros t []|reflexivity].
Qed.

(** * Further properties *)

(** ** [upload_file] *)

(** X1. [upload_file] answers [True] exactly when the file is there, the
    store accepts the write and, if the object is to be public, the
    visibility change. No answer of the store makes it raise: it raises
    only the [OSError] of [Path.exists]. *)
Theorem upload_file_outcome (w : World) (p : path) (b : string)
    (blob_name : option string) (public : bool) :
  (fst (upload_file w p b blob_name public) = Ret true <->
   path_exists w p = Present /\
   upload_from_filename w b (blob_name_or_default blob_name p) p = None /\
   (public = true ->
    make_public w b (blob_name_or_default blob_name p) = None)) /\
  (forall e,
     fst (upload_file w p b blob_name public) = Raise e <->
     exists msg, path_exists w p = StatFails msg /\ e = OSError msg).
Proof.
  rewrite upload_file_blob_name, upload_file_result.
  unfold task_succeeds. cbn [fst snd].
  destruct (path_exists w p) as [| |msg].
  - split.
    + destruct (upload_from_filename w b (blob_name_or_default blob_name p) p).
      * split; [discriminate|]. intros (_ & H & _). discriminate.
      * destruct public.
        -- destruct (make_public w b (blob_name_or_default blob_name p)).
           ++ split; [discriminate|]. intros (_ & _ & H).
              discriminate (H eq_refl).
           ++ tauto.
        -- split; [|reflexivity]. intros _. repeat split. discriminate.
    + intros e. split; [discriminate|]. intros (msg & H & _). discriminate.
  - split.
    + split; [discriminate|]. intros (H & _). discriminate.
    + intros e. split; [discriminate|]. intros (msg & H & _). discriminate.
  - split.
    + split; [discriminate|]. intros (H & _). discriminate.
    + intros e. split.
      * intros H. injection H as <-. now exists msg.
      * intros (msg' & H & ->). now injection H as ->.
Qed.

(** X2. The store calls of one [upload_file]: none when the file is not
    there, otherwise one write to the given bucket and key, followed by
    one visibility change only when it was asked for and the write was
    accepted. *)
Theorem upload_file_store_calls (w : World) (p : path) (b : string)
    (blob_name : option string) (public : bool) :
  let k := blob_name_or_default blob_name p in
  let calls := store_calls (snd (upload_file w p b blob_name public)) in
  (path_exists w p <> Present -> calls = []) /\
  (path_exists w p = Present ->
   calls = [EvUploadFromFilename b k p] \/
   calls = [EvUploadFromFilename b k p; EvMakePublic b k]) /\
  (In (EvMakePublic b k) calls <->
   path_exists w p = Present /\ upload_from_filename w b k p = None /\
   public = true).
Proof.
  cbv zeta. rewrite upload_file_blob_name, upload_file_calls.
  unfold task_calls. cbn [fst snd].
  destruct (path_exists w p) as [| |msg].
  - split; [congruence|]. split.
    + intros _.
      destruct (upload_from_filename w b (blob_name_or_default blob_name p) p);
        [now left|]. destruct public; [now right|now left].
    + destruct (upload_from_filename w b (blob_name_or_default blob_name p) p).
      * split.
        -- intros [H|[]]. discriminate H.
        -- intros (_ & H & _). discriminate H.
      * destruct public.
        -- split; [tauto|]. intros _. right. now left.
        -- split.
           ++ intros [H|[]]. discriminate H.
           ++ intros (_ & _ & H). discriminate H.
  - split; [reflexivity|]. split; [discriminate|].
    split; [intros []|]. intros (H & _). discriminate H.
  - split; [reflexivity|]. split; [discriminate|].
    split; [intros []|]. intros (H & _). discriminate H.
Qed.

(** ** [bucket_exists] *)

(** X3. [bucket_exists] never raises: it asks the store once and answers
    [True] exactly when [reload] succeeds. A missing bucket is reported
    silently, any other error with one ERROR line. *)
Theorem bucket_exists_answer (w : World) (b : string) :
  fst (bucket_exists w b) =
    Ret (match reload w b with None => true | Some _ => false end) /\
  store_calls (snd (bucket_exists w b)) = [EvReload b] /\
  filter is_error_log (snd (bucket_exists w b)) =
    match reload w b with
    | None | Some (StoreNotFound _) => []
    | Some (StoreForbidden msg) | Some (StoreTransfer msg) =>
        [EvLog ERROR ("Error checking bucket " ++ b ++ ": " ++ msg)]
    end.
Proof.
  unfold bucket_exists, call_store.
  destruct (reload w b) as [[msg|msg|msg]|]; repeat split.
Qed.

(** ** The walk of the directory *)















(** ** The run of a batch *)

Lemma settle_trace w b public res t :
  snd (settle w b public res t) =
  snd (upload_file w (fst t) b (Some (snd t)) public) ++ [EvPbarUpdate].
Proof.
  destruct t as [p k]. unfold settle. cbn [fst snd].
  pose proof (upload_file_result w p b k public) as H.
  destruct (upload_file w p b (Some k) public) as [r tr]. cbn [fst snd] in *.
  subst r.
  destruct (path_exists w p);
    try destruct (task_succeeds w b public (p, k));
    cbn; now rewrite ?app_nil_r.
Qed.

Lemma drain_trace w b public l : forall res,
  snd (drain w b public l res) =
  flat_map (fun t => snd (upload_file w (fst t) b (Some (snd t)) public)
                     ++ [EvPbarUpdate]) l.
Proof.
  induction l as [|t l IH]; intros res; simpl; [reflexivity|].
  rewrite (snd_bind_Ret _ _ _ (settle_result w b public res t)).
  now rewrite settle_trace, IH.
Qed.

Lemma filter_flat_map {A B} (f : B -> bool) (g : A -> list B) (l : list A) :
  filter f (flat_map g l) = flat_map (fun x => filter f (g x)) l.
Proof.
  induction l as [|x l IH]; simpl; [reflexivity|].
  now rewrite filter_app, IH.
Qed.

(** The events of [upload_directory] other than its log lines: those of
    the tasks, in completion order; none when the walk fails. *)
Lemma upload_directory_filter w root b prefix public max_workers
    (f : event -> bool) :
  wf_node (fs w) = true ->
  pool_sound w ->
  (forall lvl msg, f (EvLog lvl msg) = false) ->
  filter f (snd (upload_directory w root b prefix public max_workers)) =
  match walk_error w root with
  | Some _ => []
  | None =>
      if (max_workers <=? 0)%Z then []
      else
        flat_map
          (fun t => filter f (snd (upload_file w (fst t) b (Some (snd t)) public)
                              ++ [EvPbarUpdate]))
          (as_completed w (tasks w root prefix))
  end.
Proof.
  intros Hwf Hpool Hlog. rewrite upload_directory_unfold by assumption.
  destruct (walk_error w root); [reflexivity|].
  destruct (is_dir (fs w) root) eqn:Hdir; cbn [negb].
  - destruct (tasks w root prefix) as [|t l] eqn:Htodo.
    + rewrite (pool_sound_nil w Hpool). cbn. rewrite Hlog.
      now destruct (max_workers <=? 0)%Z.
    + destruct (max_workers <=? 0)%Z; [cbn; now rewrite Hlog|].
      unfold log, emit. cbn [bind].
      pose proof (drain_result w b public (as_completed w (t :: l)) no_results)
        as Hd.
      pose proof (drain_trace w b public (as_completed w (t :: l)) no_results)
        as Ht.
      destruct (drain w b public (as_completed w (t :: l)) no_results)
        as [r tr].
      cbn [fst snd] in Hd, Ht. subst r. unfold ret, bind. cbn [snd app].
      cbn [filter]. rewrite Hlog, filter_app. cbn [filter app].
      rewrite Hlog, app_nil_r, Ht. apply filter_flat_map.
  - unfold tasks. rewrite (files_below_not_dir w root Hdir).
    cbn [map]. rewrite (pool_sound_nil w Hpool). cbn. rewrite Hlog.
    now destruct (max_workers <=? 0)%Z.
Qed.



Lemma upload_file_echoes w p b k public :
  filter is_echo (snd (upload_file w p b (Some k) public)) = [].
Proof.
  unfold upload_file, exists_now, call_store.
  destruct (path_exists w p); try reflexivity.
  destruct (upload_from_filename w b k p) as [[]|]; try reflexivity.
  destruct public; try reflexivity.
  destruct (make_public w b k) as [[]|]; reflexivity.
Qed.


Lemma flat_map_nil {A B} (g : A -> list B) (l : list A) :
  (forall x, g x = []) -> flat_map g l = [].
Proof.
  intros H. induction l as [|x l IH]; simpl; [reflexivity|].
  now rewrite H, IH.
Qed.







(** X7. A batch changes the visibility of an object only when it was
    asked to make the uploads public, and then only of an object it has
    just written with success, under the key of a regular file below the
    directory. *)
Theorem batch_visibility (w : World) (root : path)
    (bucket_name prefix : string) (public : bool) (max_workers : Z) :
  wf_node (fs w) = true ->
  pool_sound w ->
  forall b k,
    In (EvMakePublic b k)
      (snd (upload_directory w root bucket_name prefix public max_workers)) ->
    public = true /\ b = bucket_name /\
    exists rel,
      In rel (files_below w root) /\
      k = blob_name_of (os_flavour w) prefix rel /\
      path_exists w (root ++ rel) = Present /\
      upload_from_filename w bucket_name k (root ++ rel) = None.
Proof.
  intros Hwf Hpool b k Hin.
  assert (Hc : In (EvMakePublic b k)
                 (store_calls
                    (snd (upload_directory w root bucket_name prefix public
                            max_workers)))).
  { unfold store_calls. apply filter_In. now split. }
  rewrite (upload_directory_calls w root bucket_name prefix public max_workers
             Hwf Hpool) in Hc.
  destruct (walk_error w root); [contradiction|].
  destruct (max_workers <=? 0)%Z; [contradiction|].
  apply in_flat_map in Hc as (t & Ht & Hev).
  apply (Permutation_in _ (Permutation_sym (Hpool (tasks w root prefix)))) in Ht.
  unfold tasks in Ht. apply in_map_iff in Ht as (rel & <- & Hrel).
  unfold task_calls in Hev. cbn [task_of fst snd] in Hev.
  destruct (path_exists w (root ++ rel)) eqn:Hp; try contradiction.
  destruct Hev as [E|Hev]; [discriminate E|].
  destruct (upload_from_filename w bucket_name
              (blob_name_of (os_flavour w) prefix rel) (root ++ rel)) eqn:Hput;
    [contradiction|].
  destruct public; [|contradiction].
  destruct Hev as [E|[]]. injection E as <- <-.
  repeat split. exists rel. repeat split; assumption.
Qed.

Lemma batch_visibility_witness :
  wf_node (fs rough) = true /\
  pool_sound rough /\
  In (EvMakePublic "bk" "data/img/a.png")
    (snd (upload_directory rough ["site"] "bk" "data/" true 4)) /\
  exists rel,
    In rel (files_below rough ["site"]) /\
    "data/img/a.png" = blob_name_of (os_flavour rough) "data/" rel /\
    path_exists rough (["site"] ++ rel) = Present /\
    upload_from_filename rough "bk" "data/img/a.png" (["site"] ++ rel) = None.
Proof.
  assert (Hin : In (EvMakePublic "bk" "data/img/a.png")
                  (snd (upload_directory rough ["site"] "bk" "data/" true 4))).
  { cbn. do 3 right. left. reflexivity. }
  split; [reflexivity|]. split; [exact pool_sound_rough|].
  split; [exact Hin|].
  exact (proj2 (proj2 (batch_visibility rough ["site"] "bk" "data/" true 4
                         eq_refl pool_sound_rough "bk" "data/img/a.png" Hin))).
Defined.

(** ** The commands *)

(** X8. [upload] checks the bucket first: when [bucket_exists] finds it
    missing or inaccessible the command exits with status 1 and the file
    is neither examined nor written. *)
Theorem upload_short_circuits (w : World) (file_path : path)
    (bucket_name : string) (blob_name : option string) (public : bool) :
  reload w bucket_name <> None ->
  exit_status (upload w file_path bucket_name blob_name public) = 1%Z /\
  filter is_task_event (snd (upload w file_path bucket_name blob_name public))
    = [] /\
  (client_new w = None ->
   filter is_echo (snd (upload w file_path bucket_name blob_name public)) =
   [EvEcho true ("Error: Bucket '" ++ bucket_name
                 ++ "' not found or not accessible")]).
Proof.
  intros Hmissing.
  unfold upload, GCSUploader_init, bucket_exists, call_store.
  destruct (client_new w) as [[msg|msg]|];
    destruct (reload w bucket_name) as [[m|m|m]|]; try congruence;
    cbn; repeat split; discriminate.
Qed.

Lemma upload_short_circuits_witness :
  reload rough "gone" <> None /\
  exit_status (upload rough ["notes.txt"] "gone" None false) = 1%Z /\
  filter is_task_event (snd (upload rough ["notes.txt"] "gone" None false)) = [].
Proof.
  assert (H : reload rough "gone" <> None) by discriminate.
  split; [exact H|].
  destruct (upload_short_circuits rough ["notes.txt"] "gone" None false H)
    as (Hexit & Hnone & _).
  split; [exact Hexit|exact Hnone].
Defined.

(** X9. When the client cannot be built, each of the three commands logs
    the failure, echoes [Error: <message>] on the error stream and exits
    with status 1 without one call to the store. *)
Theorem client_failure_exits (w : World) (e : init_error) :
  client_new w = Some e ->
  let msg := match e with NoCredentials m | InitFails m => m end in
  let run (m : M unit) :=
    exit_status m = 1%Z /\
    filter is_echo (snd m) = [EvEcho true ("Error: " ++ msg)] /\
    filter is_error_log (snd m) <> [] /\
    store_calls (snd m) = [] in
  (forall p b blob_name public, run (upload w p b blob_name public)) /\
  (forall dir b prefix public max_workers,
     run (upload_dir w dir b prefix public max_workers)) /\
  (forall answer, run (list_buckets w answer)).
Proof.
  intros He. cbv zeta.
  unfold upload, upload_dir, list_buckets, GCSUploader_init.
  rewrite He. destruct e as [m|m]; cbn; repeat split; discriminate.
Qed.

Lemma client_failure_exits_witness :
  client_new locked = Some (NoCredentials "no credentials") /\
  exit_status (upload_dir locked ["site"] "bk" "" false 4) = 1%Z /\
  filter is_echo (snd (upload_dir locked ["site"] "bk" "" false 4)) =
    [EvEcho true "Error: no credentials"].
Proof.
  split; [reflexivity|].
  destruct (client_failure_exits locked (NoCredentials "no credentials")
              eq_refl) as (_ & Hdir & _).
  destruct (Hdir ["site"] "bk" "" false 4%Z) as (Hexit & Hecho & _).
  split; [exact Hexit|exact Hecho].
Defined.

Lemma echo_errors_eq l :
  echo_errors l =
  (Ret tt, map (fun error => EvEcho false ("  - " ++ error)) l).
Proof.
  induction l as [|x l IH]; simpl; [reflexivity|]. now rewrite IH.
Qed.

Lemma echo_buckets_eq l :
  echo_buckets l =
  (Ret tt, map (fun bucket => EvEcho false ("  - " ++ bucket)) l).
Proof.
  induction l as [|x l IH]; simpl; [reflexivity|]. now rewrite IH.
Qed.

Lemma filter_is_echo_map (f : string -> string) l :
  filter is_echo (map (fun x => EvEcho false (f x)) l) =
  map (fun x => EvEcho false (f x)) l.
Proof.
  induction l as [|x l IH]; simpl; [reflexivity|]. now rewrite IH.
Qed.

Lemma upload_directory_echoes w root b prefix public max_workers :
  wf_node (fs w) = true ->
  pool_sound w ->
  filter is_echo (snd (upload_directory w root b prefix public max_workers))
    = [].
Proof.
  intros Hwf Hpool.
  rewrite (upload_directory_filter w root b prefix public max_workers
             is_echo Hwf Hpool) by reflexivity.
  destruct (walk_error w root); [reflexivity|].
  destruct (max_workers <=? 0)%Z; [reflexivity|].
  apply flat_map_nil. intros [p k]. cbn [fst snd].
  now rewrite filter_app, upload_file_echoes.
Qed.

(** X10. What [upload_dir] tells its caller once the bucket has been
    found and the batch has returned: the two counts, then, only when a
    file failed, the heading [Errors:] and one line per entry of
    [errors], all on the standard stream; the status is 1 exactly when
    the failure count is positive. *)
Theorem upload_dir_report (w : World) (directory_path : path)
    (bucket_name prefix : string) (public : bool) (max_workers : Z)
    (res : results) :
  wf_node (fs w) = true ->
  pool_sound w ->
  client_new w = None ->
  reload w bucket_name = None ->
  fst (upload_directory w directory_path bucket_name prefix public max_workers)
    = Ret res ->
  filter is_echo
    (snd (upload_dir w directory_path bucket_name prefix public max_workers))
    = report res /\
  exit_status
    (upload_dir w directory_path bucket_name prefix public max_workers)
    = (if Nat.eqb (failed res) 0 then 0 else 1)%Z.
Proof.
  intros Hwf Hpool Hc Hr Hres.
  pose proof (upload_directory_echoes w directory_path bucket_name prefix
                public max_workers Hwf Hpool) as Hecho.
  unfold upload_dir, GCSUploader_init, bucket_exists, call_store, report.
  rewrite Hc, Hr.
  destruct (upload_directory w directory_path bucket_name prefix public
              max_workers) as [r tr].
  cbn [fst snd] in Hres, Hecho. subst r.
  destruct res as [ok ko errs].
  cbv beta iota zeta
    delta [bind log echo emit ret try_except errors failed success negb].
  destruct errs as [|x errs]; destruct ko as [|ko];
    rewrite ?echo_errors_eq; cbn;
    rewrite ?filter_app, ?Hecho; cbn;
    rewrite ?filter_app, ?(filter_is_echo_map (fun e => "  - " ++ e)%string);
    cbn; rewrite ?app_nil_r; split; reflexivity.
Qed.

Lemma upload_dir_report_witness :
  wf_node (fs rough) = true /\
  pool_sound rough /\
  client_new rough = None /\
  reload rough "bk" = None /\
  filter is_echo (snd (upload_dir rough ["site"] "bk" "data/" false 2)) =
    [EvEcho false "Upload complete:";
     EvEcho false "  Successful: 1";
     EvEcho false "  Failed: 2";
     EvEcho false "Errors:";
     EvEcho false "  - Error uploading site\.hidden: Permission denied";
     EvEcho false "  - Failed to upload: site\index.html"] /\
  exit_status (upload_dir rough ["site"] "bk" "data/" false 2) = 1%Z.
Proof.
  split; [reflexivity|]. split; [exact pool_sound_rough|].
  split; [reflexivity|]. split; [reflexivity|].
  exact (upload_dir_report rough ["site"] "bk" "data/" false 2
           {| success := 1;
              failed := 2;
              errors := ["Error uploading site\.hidden: Permission denied";
                         "Failed to upload: site\index.html"] |}
           eq_refl pool_sound_rough eq_refl eq_refl eq_refl).
Defined.



(** ** Listing the buckets *)

(** X12. [GCSUploader.list_buckets] never raises: it returns the names
    the store lists, and the empty list when the listing fails. The
    command then exits with status 0 either way, and a failed listing
    reads on the standard stream like an account without buckets. *)
Theorem list_buckets_never_fails (w : World) (answer : listing) :
  client_new w = None ->
  let names :=
    match answer with Listed names => names | ListingFails _ => [] end in
  fst (GCSUploader_list_buckets answer) = Ret names /\
  exit_status (list_buckets w answer) = 0%Z /\
  filter is_echo (snd (list_buckets w answer)) =
    match names with
    | [] => [EvEcho false "No accessible buckets found"]
    | _ => EvEcho false "Accessible buckets:"
           :: map (fun bucket => EvEcho false ("  - " ++ bucket)) names
    end.
Proof.
  intros Hc. cbv zeta.
  unfold list_buckets, GCSUploader_list_buckets, GCSUploader_init.
  rewrite Hc.
  destruct answer as [[|n names]|[m|m|m]];
    [cbn; repeat split| |cbn; repeat split..].
  cbv beta iota zeta delta [bind log echo emit ret try_except raise negb].
  rewrite echo_buckets_eq. cbn.
  rewrite (filter_is_echo_map (fun e => "  - " ++ e)%string).
  repeat split.
Qed.

Lemma list_buckets_never_fails_witness :
  client_new calm = None /\
  exit_status (list_buckets calm (ListingFails (StoreForbidden "403"))) = 0%Z /\
  filter is_echo
    (snd (list_buckets calm (ListingFails (StoreForbidden "403")))) =
    [EvEcho false "No accessible buckets found"].
Proof.
  split; [reflexivity|].
  exact (proj2 (list_buckets_never_fails calm
                  (ListingFails (StoreForbidden "403")) eq_refl)).
Defined.

(** ** Keys *)

Lemma no_backslash_replace s : no_backslash (replace_backslash s) = true.
Proof.
  induction s as [|c s IH]; simpl; [reflexivity|].
  rewrite IH, andb_true_r.
  destruct (Ascii.eqb c backslash) eqn:E; [reflexivity|]. now rewrite E.
Qed.

Lemma no_backslash_app s1 s2 :
  no_backslash (s1 ++ s2) = no_backslash s1 && no_backslash s2.
Proof.
  induction s1 as [|c s1 IH]; simpl; [reflexivity|].
  now rewrite IH, andb_assoc.
Qed.

Lemma no_backslash_concat l :
  forallb no_backslash l = true -> no_backslash (String.concat "/" l) = true.
Proof.
  induction l as [|x l IH]; [reflexivity|].
  destruct l as [|y l]; cbn [forallb]; intros H.
  - now rewrite andb_true_r in H.
  - apply andb_prop in H as [Hx Hl].
    change (String.concat "/" (x :: y :: l))
      with (x ++ "/" ++ String.concat "/" (y :: l))%string.
    rewrite !no_backslash_app, Hx, (IH Hl). reflexivity.
Qed.

(** X13. No destination key holds a backslash, and the key of a file does
    not depend on the path flavour of the machine that walks the tree:
    the same prefix and components give the same key under both. *)
Theorem keys_are_portable (prefix : string) (relative_path : path) :
  (forall fl, no_backslash (blob_name_of fl prefix relative_path) = true) /\
  blob_name_of Posix prefix relative_path =
  blob_name_of Windows prefix relative_path.
Proof.
  split.
  - intros fl.
    rewrite blob_name_of_str_path, no_backslash_app, no_backslash_replace.
    destruct relative_path as [|c rel]; [reflexivity|].
    apply (no_backslash_concat (map replace_backslash (c :: rel))).
    rewrite forallb_forall.
    intros x Hx. apply in_map_iff in Hx as (y & <- & _).
    apply no_backslash_replace.
  - now rewrite !blob_name_of_str_path.
Qed.

(** X14. [upload] echoes exactly one line in every run: on the standard
    stream when it exits with status 0, on the error stream otherwise. The
    [SystemExit] of a failed upload passes the handler of line 253
    without a second line. *)
Theorem upload_echoes_once (w : World) (file_path : path)
    (bucket_name : string) (blob_name : option string) (public : bool) :
  exists err msg,
    filter is_echo (snd (upload w file_path bucket_name blob_name public)) =
      [EvEcho err msg] /\
    (err = false <->
     exit_status (upload w file_path bucket_name blob_name public) = 0%Z).
Proof.
  pose proof (upload_file_result w file_path bucket_name
                (blob_name_or_default blob_name file_path) public) as Hres.
  pose proof (upload_file_echoes w file_path bucket_name
                (blob_name_or_default blob_name file_path) public) as Hecho.
  unfold upload, GCSUploader_init, bucket_exists, call_store.
  rewrite (upload_file_blob_name w file_path bucket_name blob_name public).
  destruct (upload_file w file_path bucket_name
              (Some (blob_name_or_default blob_name file_path)) public)
    as [r tr].
  cbn [fst snd] in Hres, Hecho. subst r.
  destruct (client_new w) as [[m|m]|];
    [cbn; eexists _, _; split; [reflexivity|split; discriminate]..|].
  destruct (reload w bucket_name) as [[m|m|m]|];
    [cbn; eexists _, _; split; [reflexivity|split; discriminate]..|].
  destruct (path_exists w file_path);
    try destruct (task_succeeds w bucket_name public
                    (file_path, blob_name_or_default blob_name file_path));
    cbn; rewrite ?filter_app, ?Hecho; cbn;
    eexists _, _; (split; [reflexivity|split; (reflexivity || discriminate)]).
Qed.

Lemma plain_name_no_backslash s : plain_name s = true -> no_backslash s = true.
Proof.
  induction s as [|c s IH]; simpl; [reflexivity|].
  intros H. apply andb_prop in H as [H Hs]. apply andb_prop in H as [_ Hc].
  now rewrite Hc, IH.
Qed.

Lemma append_empty_r (s : string) : (s ++ "")%string = s.
Proof.
  induction s as [|c s IH]; cbn; [reflexivity|]. now rewrite IH.
Qed.

(** What follows the first component in [String.concat "/"]. *)
Lemma concat_slash_cons x l :
  String.concat "/" (x :: l) =
  (x ++ match l with
        | [] => ""
        | _ => String slash (String.concat "/" l)
        end)%string.
Proof.
  destruct l; [now rewrite append_empty_r|reflexivity].
Qed.

Lemma plain_prefix_inj x : forall y s1 s2,
  plain_name x = true -> plain_name y = true ->
  (s1 = "" \/ exists r, s1 = String slash r) ->
  (s2 = "" \/ exists r, s2 = String slash r) ->
  (x ++ s1 = y ++ s2)%string -> x = y /\ s1 = s2.
Proof.
  induction x as [|c x IH]; intros [|d y] s1 s2 Hx Hy H1 H2 E; cbn in *.
  - now split.
  - apply andb_prop in Hy as [Hy _]. apply andb_prop in Hy as [Hd _].
    destruct H1 as [->|(r & ->)]; [discriminate|].
    injection E as <- _. now rewrite Ascii.eqb_refl in Hd.
  - apply andb_prop in Hx as [Hx _]. apply andb_prop in Hx as [Hc _].
    destruct H2 as [->|(r & ->)]; [discriminate|].
    injection E as -> _. now rewrite Ascii.eqb_refl in Hc.
  - injection E as -> E.
    apply andb_prop in Hx as [_ Hx]. apply andb_prop in Hy as [_ Hy].
    destruct (IH y s1 s2 Hx Hy H1 H2 E) as [-> ->]. now split.
Qed.

Lemma concat_slash_inj l1 : forall l2,
  l1 <> [] -> l2 <> [] ->
  forallb plain_name l1 = true -> forallb plain_name l2 = true ->
  String.concat "/" l1 = String.concat "/" l2 -> l1 = l2.
Proof.
  induction l1 as [|x l1 IH]; intros [|y l2] Hn1 Hn2 Hp1 Hp2 E;
    try congruence.
  cbn [forallb] in Hp1, Hp2.
  apply andb_prop in Hp1 as [Hx Hl1]. apply andb_prop in Hp2 as [Hy Hl2].
  rewrite !concat_slash_cons in E.
  apply plain_prefix_inj in E as [-> E]; try assumption.
  - f_equal. destruct l1 as [|x1 l1], l2 as [|y2 l2]; try discriminate;
      [reflexivity|].
    injection E as E. apply IH; try assumption; discriminate.
  - destruct l1; [now left|right; eauto].
  - destruct l2; [now left|right; eauto].
Qed.

Lemma append_inv_head (s t1 t2 : string) :
  (s ++ t1 = s ++ t2)%string -> t1 = t2.
Proof.
  induction s as [|c s IH]; cbn; [auto|]. intros E. injection E as E. auto.
Qed.

(** X15. Where no file name holds a slash or a backslash, two files of
    one batch share a key only if they are the same file: the key
    determines the relative path, so no upload of the batch overwrites
    another. *)
Theorem keys_are_distinct (fl : flavour) (prefix : string)
    (rel1 rel2 : path) :
  rel1 <> [] -> rel2 <> [] ->
  forallb plain_name rel1 = true ->
  forallb plain_name rel2 = true ->
  blob_name_of fl prefix rel1 = blob_name_of fl prefix rel2 ->
  rel1 = rel2.
Proof.
  intros Hn1 Hn2 Hp1 Hp2 E. rewrite !blob_name_of_eq in E by assumption.
  apply append_inv_head in E.
  assert (Hid : forall l, forallb plain_name l = true ->
                          map replace_backslash l = l).
  { intros l Hl. apply map_replace_backslash_id.
    rewrite forallb_forall in *. intros x Hx.
    apply plain_name_no_backslash. now apply Hl. }
  rewrite (Hid _ Hp1), (Hid _ Hp2) in E.
  now apply concat_slash_inj.
Qed.

Lemma keys_are_distinct_witness :
  ["img"; "a.png"] <> [] /\
  ["img"; "a.png"] <> [] /\
  forallb plain_name ["img"; "a.png"] = true /\
  blob_name_of Windows "data/" ["img"; "a.png"] =
    blob_name_of Windows "data/" ["img"; "a.png"] /\
  ["img"; "a.png"] = ["img"; "a.png"].
Proof.
  assert (Hn : ["img"; "a.png"] <> @nil string) by discriminate.
  split; [exact Hn|]. split; [exact Hn|]. split; [reflexivity|].
  split; [reflexivity|].
  exact (keys_are_distinct Windows "data/" ["img"; "a.png"] ["img"; "a.png"]
           Hn Hn eq_refl eq_refl eq_refl).
Defined.

(** ** The warehouse export *)

Module BigQueryFacts.
Import BigQuery.

Lemma day_range_bounds refresh_window day :
  In day (day_range refresh_window) ->
  (1 <= day <= refresh_window)%Z.
Proof.
  unfold day_range. intros H. apply in_map_iff in H as (k & <- & Hk).
  apply in_seq in Hk. lia.
Qed.

Lemma nth_map_seq {A} (f : nat -> A) (d : A) len : forall start i,
  i < len -> nth i (map f (seq start len)) d = f (start + i).
Proof.
  induction len as [|len IH]; intros start i Hi; [lia|].
  destruct i as [|i]; cbn [seq map nth].
  - now rewrite Nat.add_0_r.
  - rewrite IH by lia. f_equal. lia.
Qed.

Lemma query_loop_run w project dataset table date_partition sharded date_now
    days :
  (forall day, In day days -> (0 < date_now - day <= MAXORDINAL)%Z) ->
  forall query_list n,
    query_loop w project dataset table date_partition sharded date_now days
      query_list n =
    (Ret (query_list ++
          map (fun day =>
                 query_text w project dataset table date_partition sharded
                   (date_now - day)) days),
     n,
     if sharded then []
     else map (fun day =>
                 EvPrint (query_text w project dataset table date_partition
                            sharded (date_now - day))) days).
Proof.
  induction days as [|day days IH]; intros Hvalid query_list n.
  - cbn. rewrite app_nil_r. now destruct sharded.
  - cbn [query_loop]. unfold bind at 1, days_before.
    assert (Hday : ((0 <? date_now - day) && (date_now - day <=? MAXORDINAL))%Z
                   = true).
    { specialize (Hvalid day (or_introl eq_refl)).
      apply andb_true_intro. split; [apply Z.ltb_lt|apply Z.leb_le]; lia. }
    rewrite Hday.
    destruct sharded;
      cbv beta iota zeta delta [ret print emit negb bind];
      rewrite IH by (intros d Hd; apply Hvalid; now right);
      cbn [map app]; now rewrite <- app_assoc.
Qed.

(** X16. [_query] reads the clock once and, when the window stays inside
    the calendar, returns one query per day of the window: the query at
    position [i] is for the day [i + 1] days before today, so today is
    never queried and a window of zero or fewer days gives no query. The
    queries are printed only for a table that is not sharded. *)
Theorem query_window (w : World) (project dataset table : string)
    (refresh_window : Z) (date_partition : option string) (sharded : bool)
    (n : nat) :
  (now w n <= MAXORDINAL)%Z ->
  (refresh_window < now w n)%Z ->
  exists queries,
    _query w project dataset table refresh_window date_partition sharded n =
      (Ret queries, S n, if sharded then [] else map EvPrint queries) /\
    List.length queries = Z.to_nat refresh_window /\
    forall i,
      i < Z.to_nat refresh_window ->
      nth i queries "" =
      query_text w project dataset table date_partition sharded
        (now w n - Z.of_nat (S i)).
Proof.
  intros Hmax Hwin. unfold _query, bind, today.
  rewrite query_loop_run.
  - eexists. split; [|split].
    + cbn [app]. destruct sharded; [reflexivity|]. now rewrite map_map.
    + cbn [app]. unfold day_range. now rewrite !length_map, length_seq.
    + intros i Hi. cbn [app]. unfold day_range. rewrite map_map.
      now rewrite nth_map_seq.
  - intros day Hday. apply day_range_bounds in Hday. lia.
Qed.

Lemma query_window_witness :
  (now sample 0 <= MAXORDINAL)%Z /\
  (2 < now sample 0)%Z /\
  exists queries,
    _query sample "acme" "shop" "sales" 2 (Some "day") false 0 =
      (Ret queries, 1, map EvPrint queries) /\
    List.length queries = 2.
Proof.
  assert (H1 : (now sample 0 <= MAXORDINAL)%Z) by (cbv; discriminate).
  assert (H2 : (2 < now sample 0)%Z) by reflexivity.
  split; [exact H1|]. split; [exact H2|].
  destruct (query_window sample "acme" "shop" "sales" 2 (Some "day") false 0
              H1 H2) as (queries & Hrun & Hlen & _).
  exists queries. split; [exact Hrun|exact Hlen].
Defined.

Lemma query_loop_sharded w project dataset table dp dp' date_now days :
  forall query_list n,
    query_loop w project dataset table dp true date_now days query_list n =
    query_loop w project dataset table dp' true date_now days query_list n.
Proof.
  induction days as [|day days IH]; intros query_list n; [reflexivity|].
  cbn [query_loop]. unfold bind at 1 3.
  destruct (days_before date_now day n) as [[[d|e] n'] t]; [|reflexivity].
  cbn [negb]. unfold bind. cbn [ret]. now rewrite IH.
Qed.

(** X17. For a sharded table [_query] does not look at the partition
    field: whatever [date_partition] is, the outcome, the queries and
    the output are the same. *)
Theorem sharded_ignores_partition (w : World) (project dataset table : string)
    (refresh_window : Z) (date_partition date_partition' : option string)
    (n : nat) :
  _query w project dataset table refresh_window date_partition true n =
  _query w project dataset table refresh_window date_partition' true n.
Proof.
  unfold _query, bind, today.
  now rewrite (query_loop_sharded w project dataset table date_partition
                 date_partition').
Qed.

Lemma bind_events {A B} (P : event -> Prop) (m : M A) (f : A -> M B) n :
  Forall P (snd (m n)) ->
  (forall a n', Forall P (snd (f a n'))) ->
  Forall P (snd (bind m f n)).
Proof.
  intros Hm Hf. unfold bind. destruct (m n) as [[[a|e] n'] t]; [|exact Hm].
  specialize (Hf a n'). destruct (f a n') as [[r n''] t'].
  apply Forall_app. now split.
Qed.



Lemma item_events {A} (P : event -> Prop) key (value : option A) n :
  Forall P (snd (item key value n)).
Proof.
  destruct value; constructor.
Qed.

Lemma query_loop_events (P : event -> Prop) w project dataset table
    date_partition sharded date_now days :
  (forall text, P (EvPrint text)) ->
  forall query_list n,
    Forall P (snd (query_loop w project dataset table date_partition sharded
                     date_now days query_list n)).
Proof.
  intros Hprint. induction days as [|day days IH]; intros query_list n;
    [constructor|].
  cbn [query_loop]. apply bind_events.
  - unfold days_before.
    destruct ((0 <? date_now - day) && (date_now - day <=? MAXORDINAL))%Z;
      constructor.
  - intros d n'. apply bind_events; [|intros; apply IH].
    destruct sharded; cbn; repeat constructor. apply Hprint.
Qed.

Lemma query_events (P : event -> Prop) w project dataset table refresh_window
    date_partition sharded n :
  (forall text, P (EvPrint text)) ->
  Forall P (snd (_query w project dataset table refresh_window date_partition
                   sharded n)).
Proof.
  intros Hprint. unfold _query. apply bind_events; [constructor|].
  intros. now apply query_loop_events.
Qed.




Lemma stops_without_read w {A} (run : outcome A * nat * list event) :
  Forall (fun ev => is_read ev = false) (snd run) ->
  stops_at_refusal w run.
Proof.
  intros Hall q msg Hin _. rewrite Forall_forall in Hall.
  specialize (Hall _ Hin). discriminate Hall.
Qed.

Lemma stops_bind w {A B} (m : M A) (f : A -> M B) n :
  stops_at_refusal w (m n) ->
  (forall a n', stops_at_refusal w (f a n')) ->
  stops_at_refusal w (bind m f n).
Proof.
  intros Hm Hf. unfold bind. destruct (m n) as [[[a|e] n'] t].
  - specialize (Hf a n'). destruct (f a n') as [[r n''] t'].
    unfold stops_at_refusal in *. cbn [fst snd] in *.
    intros q msg Hin Hread.
    apply in_app_or in Hin as [Hin|Hin].
    + destruct (Hm q msg Hin Hread) as [Hraise _]. discriminate Hraise.
    + destruct (Hf q msg Hin Hread) as [Hraise (before & ->)].
      split; [exact Hraise|]. exists (t ++ before). now rewrite app_assoc.
  - unfold stops_at_refusal in *. cbn [fst snd] in *.
    intros q msg Hin Hread.
    destruct (Hm q msg Hin Hread) as [Hraise Hlast].
    split; [|exact Hlast]. injection Hraise as ->. reflexivity.
Qed.

Lemma stops_for_each w {A} (body : A -> M unit) l :
  (forall x n, stops_at_refusal w (body x n)) ->
  forall n, stops_at_refusal w (for_each body l n).
Proof.
  intros Hbody. induction l as [|x l IH]; intros n.
  - apply stops_without_read. constructor.
  - cbn [for_each]. apply stops_bind; auto.
Qed.

Lemma stops_item w {A} key (value : option A) n :
  stops_at_refusal w (item key value n).
Proof.
  apply stops_without_read. apply item_events.
Qed.

Lemma stops_export_query w table date_now q n :
  stops_at_refusal w (export_query w table date_now q n).
Proof.
  unfold export_query, _run_query, _to_gcs, bind, emit, print, ret, raise.
  intros q' msg'.
  destruct (read_gbq w q) as [df|msg|msg] eqn:Hread.
  - destruct (to_parquet w df _); cbn;
      intros Hin Hq'; repeat destruct Hin as [Hin|Hin];
      try discriminate Hin; try contradiction;
      injection Hin as <-; congruence.
  - cbn. intros [Hin|[Hin|[]]] Hq'; [|discriminate Hin].
    injection Hin as <-. rewrite Hread in Hq'. injection Hq' as <-.
    split; [reflexivity|]. now exists [].
  - cbn. intros [Hin|[]] Hq'. injection Hin as <-. congruence.
Qed.

(** X19. A query the warehouse refuses with a [ValueError] ends the
    export: [_run_query] prints the error and yields [None], on which
    [_to_gcs] fails with an [AttributeError] that nothing catches. The
    refused query and the printed error are the last events of the run,
    so no later query of the list is run. *)
Theorem export_stops_at_refused_query (w : World)
    (table_list : option (list table_group)) (n : nat) (q msg : string) :
  In (EvReadGbq q) (snd (export_to_gcs w table_list n)) ->
  read_gbq w q = ReadValueError msg ->
  fst (fst (export_to_gcs w table_list n)) = Raise no_frame /\
  exists before,
    snd (export_to_gcs w table_list n) = before ++ [EvReadGbq q; EvPrint msg].
Proof.
  revert q msg. change (stops_at_refusal w (export_to_gcs w table_list n)).
  destruct table_list as [l|].
  - unfold export_to_gcs.
    apply stops_bind; [apply stops_without_read; constructor|].
    intros date_now n0.
    apply stops_bind; [apply stops_without_read; constructor|].
    intros _ n1. apply stops_for_each. intros tl n2. unfold export_group.
    apply stops_bind; [apply stops_item|]. intros project n3.
    apply stops_bind; [apply stops_item|]. intros dataset n4.
    apply stops_bind; [apply stops_item|]. intros tables n5.
    apply stops_for_each. intros t n6. unfold export_table.
    apply stops_bind; [apply stops_item|]. intros rw n7.
    apply stops_bind; [apply stops_item|]. intros dp n8.
    apply stops_bind; [apply stops_item|]. intros sh n9.
    apply stops_bind; [apply stops_item|]. intros table n10.
    apply stops_bind.
    + apply stops_without_read. apply query_events. reflexivity.
    + intros qs n11. apply stops_for_each. intros q n12.
      apply stops_export_query.
  - apply stops_without_read. repeat constructor.
Qed.

Lemma export_stops_at_refused_query_witness :
  In (EvReadGbq (query_text refusing "acme" "shop" "sales" (Some "day") false
                   738999))
    (snd (export_to_gcs refusing (Some [shop; shop]) 0)) /\
  read_gbq refusing
    (query_text refusing "acme" "shop" "sales" (Some "day") false 738999)
    = ReadValueError "bad query" /\
  fst (fst (export_to_gcs refusing (Some [shop; shop]) 0)) = Raise no_frame.
Proof.
  assert (Hin : In (EvReadGbq (query_text refusing "acme" "shop" "sales"
                                 (Some "day") false 738999))
                  (snd (export_to_gcs refusing (Some [shop; shop]) 0))).
  { cbn. do 2 right. left. reflexivity. }
  split; [exact Hin|]. split; [reflexivity|].
  exact (proj1 (export_stops_at_refused_query refusing (Some [shop; shop]) 0
                  _ "bad query" Hin eq_refl)).
Defined.

(** X20. A table entry that lacks one of the keys [refresh_window],
    [date_partition_field], [sharded] or [table_name] ends the export
    with a [KeyError] for the first key missing in that order, before the
    clock is read and before a query of that table is built or run. *)
Theorem export_table_missing_key (w : World) (project dataset : string)
    (date_now : Z) (t : table) (n : nat) :
  refresh_window t = None \/ date_partition_field t = None \/
  sharded t = None \/ table_name t = None ->
  export_table w project dataset date_now t n =
  (Raise (KeyError
            (match refresh_window t, date_partition_field t, sharded t with
             | None, _, _ => "refresh_window"
             | Some _, None, _ => "date_partition_field"
             | Some _, Some _, None => "sharded"
             | Some _, Some _, Some _ => "table_name"
             end)),
   n, []).
Proof.
  intros H. unfold export_table, bind, item, ret, raise.
  destruct (refresh_window t); [|reflexivity].
  destruct (date_partition_field t); [|reflexivity].
  destruct (sharded t); [|reflexivity].
  destruct (table_name t); [|reflexivity].
  destruct H as [H|[H|[H|H]]]; discriminate H.
Qed.

Lemma export_table_missing_key_witness :
  (refresh_window
     {| refresh_window := Some 3%Z; date_partition_field := None;
        sharded := Some true; table_name := None |} = None \/
   date_partition_field
     {| refresh_window := Some 3%Z; date_partition_field := None;
        sharded := Some true; table_name := None |} = None \/
   sharded
     {| refresh_window := Some 3%Z; date_partition_field := None;
        sharded := Some true; table_name := None |} = None \/
   table_name
     {| refresh_window := Some 3%Z; date_partition_field := None;
        sharded := Some true; table_name := None |} = None) /\
  export_table sample "acme" "shop" 739000
    {| refresh_window := Some 3%Z; date_partition_field := None;
       sharded := Some true; table_name := None |} 0 =
  (Raise (KeyError "date_partition_field"), 0, []).
Proof.
  split; [right; left; reflexivity|].
  apply (export_table_missing_key sample "acme" "shop" 739000
           {| refresh_window := Some 3%Z; date_partition_field := None;
              sharded := Some true; table_name := None |} 0).
  right; left; reflexivity.
Defined.

End BigQueryFacts.
